(** * image-processor.js: resize to a bounded JPEG, with HEIC conversion

    A shallow embedding of [src/image-processor.js] and the properties of
    its three functions, [isHeicFile], [convertHeicToJpeg] and
    [resizeAndConvertToJpeg].

    Modelling choices.
    - JavaScript Numbers are IEEE 754 binary64 values, those of the
      Standard Library's [SpecFloat] (precision 53, emax 1024).  The
      expression [(height / width) * maxSize] is evaluated with the binary64
      division and multiplication, one rounding per operation, in the order
      the source writes them.  [img.width], [img.height] (DOM
      [unsigned long]) and [maxSize] (a positive integer) are integers below
      2^53: [target_dimensions] carries them as [Z], and
      [target_dimensions_of_Z] proves it equal to the computation on
      Numbers, [onload_dimensions].
    - Strings are sequences of code units, restricted to U+0000..U+00FF
      ([ascii]).
    - A promise is its settled outcome together with the trace of the
      effects performed on the way; the global bindings the source probes
      with [typeof] ([heic2any], [window]) may be absent, the DOM
      collaborators it uses unconditionally ([FileReader], [Image], the
      canvas) are functions of the environment. *)

From Stdlib Require Import ZArith QArith Qpower Lia Lqa Bool List Arith.
From Stdlib Require Import String Ascii DecimalString.
From Stdlib Require Import Floats.SpecFloat.
Import ListNotations.

Local Open Scope Z_scope.

(* ================================================================== *)
(** * Part I. The program *)
(* ================================================================== *)

(** ** Numbers *)

Module F64.
Definition prec : Z := 53.
Definition emax : Z := 1024.

(** The Number holding an integer (exact below 2^53). *)
Definition of_Z (z : Z) : spec_float := binary_normalize prec emax z 0 false.

(** The [/] and [*] operators on Numbers. *)
Definition div : spec_float -> spec_float -> spec_float := SFdiv prec emax.
Definition mul : spec_float -> spec_float -> spec_float := SFmul prec emax.

(** The [>] operator on Numbers. *)
Definition gt (x y : spec_float) : bool := SFltb y x.
End F64.

(** [Math.round], read as an integer: the nearest integer, halves towards
    +infinity, that is floor(x + 1/2).  NaN and the infinities have no
    integer reading and are given 0; positive sizes never produce them. *)
Definition Math_round (x : spec_float) : Z :=
  match x with
  | S754_finite s m e =>
      let sm := if s then Z.neg m else Z.pos m in
      if 0 <=? e then sm * 2 ^ e
      else (2 * sm + 2 ^ (- e)) / 2 ^ (1 - e)
  | _ => 0
  end.

(** [Math.round] as the Number it returns: a zero result keeps the sign of
    the argument, NaN and the infinities are returned as they are. *)
Definition Math_round_Number (x : spec_float) : spec_float :=
  match x with
  | S754_finite s _ _ =>
      if Math_round x =? 0 then S754_zero s else F64.of_Z (Math_round x)
  | _ => x
  end.

(** The dimension computation of [img.onload], lines 84-101, every
    variable a Number. *)
Definition onload_dimensions (width height maxSize : spec_float)
  : spec_float * spec_float :=
  let isLandscape := F64.gt width height in
  if isLandscape then
    if F64.gt width maxSize
    then (maxSize, Math_round_Number (F64.mul (F64.div height width) maxSize))
    else (width, height)
  else
    if F64.gt height maxSize
    then (Math_round_Number (F64.mul (F64.div width height) maxSize), maxSize)
    else (width, height).

(** The same computation on integer sizes, which is what the images and
    the configuration provide: [target_dimensions_of_Z] proves that it is
    [onload_dimensions] on integer-valued Numbers.  [scale_side] is
    [Math.round((side / other) * maxSize)], lines 93 and 98. *)
Definition scale_side (side other maxSize : Z) : Z :=
  Math_round
    (F64.mul (F64.div (F64.of_Z side) (F64.of_Z other)) (F64.of_Z maxSize)).

Definition target_dimensions (width height maxSize : Z) : Z * Z :=
  let isLandscape := width >? height in
  if isLandscape then
    if width >? maxSize
    then (maxSize, scale_side height width maxSize)
    else (width, height)
  else
    if height >? maxSize
    then (scale_side width height maxSize, maxSize)
    else (width, height).

(** ** Strings *)

Module JsString.

(** [toLowerCase] on one code unit of U+0000..U+00FF: A-Z and the
    Latin-1 capitals U+00C0..U+00DE (but not the multiplication sign
    U+00D7) move up by 32. *)
Definition toLowerCase_unit (c : ascii) : ascii :=
  let n := nat_of_ascii c in
  if ((65 <=? n) && (n <=? 90)
      || (192 <=? n) && (n <=? 222) && negb (n =? 215))%nat
  then ascii_of_nat (n + 32) else c.

Fixpoint toLowerCase (s : string) : string :=
  match s with
  | EmptyString => EmptyString
  | String c s' => String (toLowerCase_unit c) (toLowerCase s')
  end.

Definition endsWith (s searchString : string) : bool :=
  let len := String.length s in
  let searchLength := String.length searchString in
  if (len <? searchLength)%nat then false
  else String.eqb (substring (len - searchLength) searchLength s) searchString.

(** [Canonicalize] of an ignore-case regular expression without the
    unicode flag, on what can meet an ASCII pattern character: a-z are
    upper-cased, and no code unit outside ASCII is ever mapped into
    ASCII. *)
Definition canonicalize (c : ascii) : ascii :=
  let n := nat_of_ascii c in
  if ((97 <=? n) && (n <=? 122))%nat then ascii_of_nat (n - 32) else c.

Fixpoint matches_literal_i (pattern s : string) : bool :=
  match pattern, s with
  | EmptyString, EmptyString => true
  | String p pattern', String c s' =>
      Ascii.eqb (canonicalize p) (canonicalize c)
      && matches_literal_i pattern' s'
  | _, _ => false
  end.

(** [/\.(heic|heif)$/i] tried at the current position: the [$] makes the
    rest of the input one of the two alternatives, exactly. *)
Definition matches_heic_ext_here (rest : string) : bool :=
  matches_literal_i ".heic" rest || matches_literal_i ".heif" rest.

(** [s.replace(/\.(heic|heif)$/i, replacement)]: the leftmost position
    where the pattern matches is replaced, the input is returned when
    there is none. *)
Fixpoint replace_heic_ext (s replacement : string) : string :=
  if matches_heic_ext_here s then replacement
  else match s with
       | EmptyString => EmptyString
       | String c s' => String c (replace_heic_ext s' replacement)
       end.

End JsString.

(** ** Values *)

(** A [File]: the parts it was built from, and its read-only attributes. *)
Record FileOf (V : Type) : Type := mkFile
  { bits : list V; name : string; type : string; lastModified : Z }.
Arguments mkFile {V}.
Arguments bits {V}.
Arguments name {V}.
Arguments type {V}.
Arguments lastModified {V}.

(** The JavaScript values that reach the three functions, as input, as
    result of the decoder or as thrown value.  Numbers are the
    integer-valued ones of magnitude below 2^53, the safe integers (each
    of them is a binary64 value; [safe_numbers] below says that a value
    holds no other); [VError] is an [Error] instance with its [name]
    and [message]; [VObject] a plain object with the value of its
    [message] property ([VUndefined] when it has none). *)
#[warnings="-register-all"] Inductive JsValue : Type :=
| VUndefined
| VNull
| VBool (b : bool)
| VNumber (n : Z)
| VString (s : string)
| VBlob (data : string) (mime : string)
| VFile (f : FileOf JsValue)
| VArray (items : list JsValue)
| VError (errname message : string)
| VObject (message : JsValue).

Definition File : Type := FileOf JsValue.

(** [v instanceof File] and [typeof v === 'string']. *)
Definition instanceof_File (v : JsValue) : bool :=
  match v with VFile _ => true | _ => false end.
Definition typeof_string (v : JsValue) : bool :=
  match v with VString _ => true | _ => false end.

(** ToBoolean. *)
Definition truthy (v : JsValue) : bool :=
  match v with
  | VUndefined | VNull => false
  | VBool b => b
  | VNumber n => negb (n =? 0)
  | VString s => negb (String.eqb s "")
  | _ => true
  end.

Fixpoint join (sep : string) (l : list string) : string :=
  match l with
  | [] => ""
  | [x] => x
  | x :: l' => (x ++ sep ++ join sep l')%string
  end.

(** ToString, as applied by [+] to the right operand of a string.  On a
    safe integer Number::toString gives the plain decimal numeral.  Larger
    Numbers are printed from their shortest round-trip digits, and in
    exponent notation from 10^21 on (1e+21): they are outside the model,
    and nothing is stated about the text of a value that holds one. *)
Fixpoint ToString (v : JsValue) : string :=
  match v with
  | VUndefined => "undefined"
  | VNull => "null"
  | VBool true => "true"
  | VBool false => "false"
  | VNumber n => NilZero.string_of_int (Z.to_int n)
  | VString s => s
  | VBlob _ _ => "[object Blob]"
  | VFile _ => "[object File]"
  | VArray items =>
      join "," (map (fun x => match x with
                              | VUndefined | VNull => ""%string
                              | _ => ToString x
                              end) items)
  | VError n m =>
      if String.eqb n "" then m
      else if String.eqb m "" then n
      else (n ++ ": " ++ m)%string
  | VObject _ => "[object Object]"
  end.

(** [error.message]; [None] when the property access itself throws a
    [TypeError], which it does on [undefined] and [null]. *)
Definition get_message (error : JsValue) : option JsValue :=
  match error with
  | VUndefined | VNull => None
  | VError _ m => Some (VString m)
  | VObject m => Some m
  | _ => Some VUndefined
  end.

(** The Numbers of the model: [Number.isSafeInteger]. *)
Definition safe_integer (n : Z) : bool := Z.abs n <? 2 ^ 53.

(** Every Number held by the value is one of the model. *)
Fixpoint safe_numbers (v : JsValue) : bool :=
  match v with
  | VNumber n => safe_integer n
  | VFile f => match f with mkFile b _ _ _ => forallb safe_numbers b end
  | VArray items => forallb safe_numbers items
  | VObject m => safe_numbers m
  | _ => true
  end.

(** ** isHeicFile, lines 10-18 *)

Definition isHeicFile (file : JsValue) : bool :=
  match file with
  | VFile f =>
      let fileName := JsString.toLowerCase (name f) in
      let mimeType := JsString.toLowerCase (type f) in
      JsString.endsWith fileName ".heic"
      || JsString.endsWith fileName ".heif"
      || String.eqb mimeType "image/heic"
      || String.eqb mimeType "image/heif"
  | _ => false
  end.

(** The two file-name tests of [isHeicFile], on their own. *)
Definition name_test (f : File) : bool :=
  JsString.endsWith (JsString.toLowerCase (name f)) ".heic"
  || JsString.endsWith (JsString.toLowerCase (name f)) ".heif".

(** ** Promises, effects and the environment *)

Inductive Settled (A : Type) : Type :=
| Fulfilled (value : A)
| Rejected (reason : JsValue).
Arguments Fulfilled {A}.
Arguments Rejected {A}.

(** The argument of the decoder, [{ blob, toType, quality }]. *)
Record ConvertRequest : Type :=
  { blob : File; toType : string; quality : spec_float }.

(** The decoder, by the settled outcome of awaiting its call: a
    synchronous throw and a rejected promise are both [Rejected]. *)
Definition Decoder : Type := ConvertRequest -> Settled JsValue.

Record Window : Type := { window_heic2any : option Decoder }.

Inductive Event : Type :=
| ConsoleError (label : string) (error : JsValue)
| DecoderCall (request : ConvertRequest)
| ReadAsDataURL (f : File)
| ImageLoad (src : string)
| DrawImage (src : string) (width height : Z)
| ToDataURL (mime : string) (q : spec_float).

(** [heic2any] and [window] are the bindings of the two global
    identifiers, [None] when [typeof] gives ['undefined'] (a binding that
    is defined is taken to be callable); [Date_now] is the clock read when
    the new file is built; [FileReader_result] is the outcome of
    [readAsDataURL] ([None]: the error event), [Image_decode] that of
    loading a source (the width and height of the image, or [None]: the
    error event), [canvas_toDataURL] the encoding of the drawn canvas. *)
Record Env : Type :=
  { heic2any : option Decoder;
    window : option Window;
    Date_now : Z;
    FileReader_result : File -> option string;
    Image_decode : string -> option (Z * Z);
    canvas_toDataURL : string -> Z -> Z -> string -> spec_float -> string }.

Definition typeof_undefined {A : Type} (binding : option A) : bool :=
  match binding with None => true | Some _ => false end.

Definition Async (A : Type) : Type := (list Event * Settled A)%type.

Definition resolve {A : Type} (a : A) : Async A := ([], Fulfilled a).
Definition reject {A : Type} (e : JsValue) : Async A := ([], Rejected e).
Definition emit (ev : Event) : Async unit := ([ev], Fulfilled tt).

Definition await {A B : Type} (m : Async A) (k : A -> Async B) : Async B :=
  match m with
  | (t1, Fulfilled a) => let '(t2, r) := k a in ((t1 ++ t2)%list, r)
  | (t1, Rejected e) => (t1, Rejected e)
  end.

Definition catch {A : Type} (m : Async A) (handler : JsValue -> Async A)
  : Async A :=
  match m with
  | (t1, Fulfilled a) => (t1, Fulfilled a)
  | (t1, Rejected e) => let '(t2, r) := handler e in ((t1 ++ t2)%list, r)
  end.

Notation "x <- m ;; k" := (await m (fun x => k))
  (at level 61, m at next level, right associativity).
Notation "m ;;; k" := (await m (fun _ => k))
  (at level 61, right associativity).

(** ** The errors of the pipeline *)

Definition DependencyMissing : JsValue :=
  VError "Error"
    "heic2any library is not loaded. Please include the library script.".
Definition NoResult : JsValue := VError "Error" "Conversion returned no result".
Definition ConversionFailed (cause : string) : JsValue :=
  VError "Error" ("Failed to convert HEIC file: " ++ cause).
Definition ReadFailure : JsValue := VError "Error" "Failed to read file".
Definition DecodeFailure : JsValue := VError "Error" "Failed to load image".
Definition InvalidInput : JsValue :=
  VError "Error" "Invalid input: expected File or data URL string".

(** What the engine throws by itself. *)
Definition WindowNotDefined : JsValue :=
  VError "ReferenceError" "window is not defined".
Definition NotAFunction : JsValue :=
  VError "TypeError" "heicConverter is not a function".
Definition CannotReadMessage (error : JsValue) : JsValue :=
  VError "TypeError"
    ("Cannot read properties of " ++ ToString error ++ " (reading 'message')").

(** ** convertHeicToJpeg, lines 25-58 *)

(** The evaluation of
    [typeof heic2any !== 'undefined' ? heic2any : window.heic2any]. *)
Inductive Binding : Type :=
| Callable (d : Decoder)
| UndefinedValue
| ReferenceError.

Definition heicConverter (env : Env) : Binding :=
  if negb (typeof_undefined (heic2any env)) then
    match heic2any env with Some d => Callable d | None => UndefinedValue end
  else
    match window env with
    | None => ReferenceError
    | Some w =>
        match window_heic2any w with
        | Some d => Callable d
        | None => UndefinedValue
        end
    end.

Definition convertHeicToJpeg (env : Env) (heicFile : File) : Async JsValue :=
  if typeof_undefined (heic2any env)
     && negb (typeof_undefined (window env))
     && match window env with
        | Some w => typeof_undefined (window_heic2any w)
        | None => false
        end
  then reject DependencyMissing
  else
    match heicConverter env with
    | ReferenceError => reject WindowNotDefined
    | converter =>
        catch
          (let request :=
             {| blob := heicFile;
                toType := "image/jpeg";
                quality := F64.of_Z 1 |} in
           convertedResult <-
             match converter with
             | Callable d => (emit (DecoderCall request) ;;; ([], d request))
             | _ => reject NotAFunction
             end ;;
           let blob :=
             match convertedResult with
             | VArray items => nth 0 items VUndefined
             | _ => convertedResult
             end in
           if negb (truthy blob) then reject NoResult
           else
             let jpegFile :=
               {| bits := [blob];
                  name := JsString.replace_heic_ext (name heicFile) ".jpg";
                  type := "image/jpeg";
                  lastModified := Date_now env |} in
             resolve (VFile jpegFile))
          (fun error =>
             emit (ConsoleError "HEIC conversion error:" error) ;;;
             match get_message error with
             | None => reject (CannotReadMessage error)
             | Some m =>
                 reject (ConversionFailed
                           (ToString (if truthy m then m else error)))
             end)
    end.

(** ** resizeAndConvertToJpeg, lines 69-139 *)

Definition default_maxSize : Z := 512.

(** The binary64 value of the literal [0.9]. *)
Definition default_quality : spec_float :=
  S754_finite false 8106479329266893 (-53).

Definition resizeAndConvertToJpeg (env : Env) (input : JsValue)
    (maxSize : option Z) (quality : option spec_float) : Async string :=
  let maxSize := match maxSize with Some m => m | None => default_maxSize end in
  let quality := match quality with Some q => q | None => default_quality end in
  processedInput <-
    match input with
    | VFile f =>
        if isHeicFile input then convertHeicToJpeg env f else resolve input
    | _ => resolve input
    end ;;
  let onload (src : string) (img : Z * Z) : Async string :=
    let '(width, height) := target_dimensions (fst img) (snd img) maxSize in
    emit (DrawImage src width height) ;;;
    emit (ToDataURL "image/jpeg" quality) ;;;
    resolve (canvas_toDataURL env src width height "image/jpeg" quality) in
  let set_src (src : string) : Async string :=
    emit (ImageLoad src) ;;;
    match Image_decode env src with
    | Some img => onload src img
    | None => reject DecodeFailure
    end in
  match processedInput with
  | VFile f =>
      emit (ReadAsDataURL f) ;;;
      match FileReader_result env f with
      | Some result => set_src result
      | None => reject ReadFailure
      end
  | VString s => set_src s
  | _ => reject InvalidInput
  end.

(** The pieces of [convertHeicToJpeg] that the statements name. *)
Definition convert_request (heicFile : File) : ConvertRequest :=
  {| blob := heicFile; toType := "image/jpeg"; quality := F64.of_Z 1 |}.

Definition first_result (convertedResult : JsValue) : JsValue :=
  match convertedResult with
  | VArray items => nth 0 items VUndefined
  | _ => convertedResult
  end.

Definition jpeg_handle (env : Env) (heicFile : File) (blob : JsValue) : File :=
  {| bits := [blob];
     name := JsString.replace_heic_ext (name heicFile) ".jpg";
     type := "image/jpeg";
     lastModified := Date_now env |}.

(** [error.message || error], for an [error] whose [message] can be read
    (on [undefined] and [null] the access throws, and no value is
    produced). *)
Definition message_or_error (error : JsValue) : JsValue :=
  match get_message error with
  | Some m => if truthy m then m else error
  | None => error
  end.

(** The two optional parameters of [resizeAndConvertToJpeg], after their
    defaults. *)
Definition maxSize_or_default (maxSize : option Z) : Z :=
  match maxSize with Some m => m | None => default_maxSize end.

Definition quality_or_default (quality : option spec_float) : spec_float :=
  match quality with Some q => q | None => default_quality end.

(** ** Environments and files used as concrete inputs *)

Definition jpeg_decoder : Decoder :=
  fun _ => Fulfilled (VArray [VBlob "JFIF" "image/jpeg"]).

Definition rejecting_decoder (reason : JsValue) : Decoder :=
  fun _ => Rejected reason.

(** A page: [window] exists, the decoder is bound to [d] (or to nothing)
    as a global and as a property of [window], and every image is
    4000x3000. *)
Definition page_env (d : option Decoder) : Env :=
  {| heic2any := d;
     window := Some {| window_heic2any := d |};
     Date_now := 1700000000000;
     FileReader_result := fun f => Some ("data:" ++ type f ++ ";base64,")%string;
     Image_decode := fun _ => Some (4000, 3000);
     canvas_toDataURL := fun _ _ _ _ _ => "data:image/jpeg;base64,/9j/"%string |}.

(** A worker: no [window] global, and no decoder script. *)
Definition worker_env : Env :=
  {| heic2any := None;
     window := None;
     Date_now := 1700000000000;
     FileReader_result := fun f => Some ("data:" ++ type f ++ ";base64,")%string;
     Image_decode := fun _ => Some (4000, 3000);
     canvas_toDataURL := fun _ _ _ _ _ => "data:image/jpeg;base64,/9j/"%string |}.

Definition img_heic : File :=
  {| bits := []; name := "img.heic"; type := ""; lastModified := 5 |}.

Definition scan_heic : File :=
  {| bits := []; name := "scan.bin"; type := "image/heic"; lastModified := 5 |}.

Definition photo_jpg : File :=
  {| bits := []; name := "photo.jpg"; type := "image/jpeg"; lastModified := 5 |}.

(** A page whose decoder script has set [window.heic2any] only, and where
    every image is 512x384. *)
Definition window_only_env (d : Decoder) : Env :=
  {| heic2any := None;
     window := Some {| window_heic2any := Some d |};
     Date_now := 1700000000000;
     FileReader_result := fun f => Some ("data:" ++ type f ++ ";base64,")%string;
     Image_decode := fun _ => Some (512, 384);
     canvas_toDataURL := fun _ _ _ _ _ => "data:image/jpeg;base64,/9j/"%string |}.

(* ================================================================== *)
(** * Part II. The specification's vocabulary *)
(* ================================================================== *)

(** ** Target dimensions, section 4.3 step 4 *)

(** round(n / d), halves away from zero. *)
Definition round_half_away (n d : Z) : Z :=
  Z.sgn n * Z.sgn d * ((2 * Z.abs n + Z.abs d) / (2 * Z.abs d)).

(** n / d lies exactly half-way between two integers. *)
Definition half_way (n d : Z) : Prop := (2 * n) mod (2 * d) = d.

Definition spec_target_dimensions (w h maxSize : Z) : Z * Z :=
  if (w >? h) && (w >? maxSize)
  then (maxSize, round_half_away (h * maxSize) w)
  else if (h >=? w) && (h >? maxSize)
  then (round_half_away (w * maxSize) h, maxSize)
  else (w, h).

(** [scaled] is within one pixel of the exact quotient num / den. *)
Definition within_one_pixel (scaled num den : Z) : Prop :=
  Z.abs (den * scaled - num) <= den.

(** [computed] is the reference value, or one below it when num / den is
    half-way between two integers. *)
Definition reference_or_tie_below (computed reference num den : Z) : Prop :=
  computed = reference \/ (computed = reference - 1 /\ half_way num den).

(** ** Case-insensitive extensions and media types, section 4.1 *)

Definition uppercase_of (p : ascii) : ascii :=
  let n := nat_of_ascii p in
  if ((97 <=? n) && (n <=? 122))%nat then ascii_of_nat (n - 32) else p.

(** [c] is the pattern character [p], in either case. *)
Definition same_letter (p c : ascii) : Prop := c = p \/ c = uppercase_of p.

(** [s] is [pattern] up to the case of its letters. *)
Inductive case_variant : string -> string -> Prop :=
| cv_nil : case_variant "" ""
| cv_cons p c ps cs :
    same_letter p c -> case_variant ps cs ->
    case_variant (String p ps) (String c cs).

Definition has_extension (ext fileName : string) : Prop :=
  exists stem e, fileName = (stem ++ e)%string /\ case_variant ext e.

Definition legacy_extension (e : string) : Prop :=
  case_variant ".heic" e \/ case_variant ".heif" e.

Definition has_legacy_extension (fileName : string) : Prop :=
  exists stem e, fileName = (stem ++ e)%string /\ legacy_extension e.

Definition has_legacy_media_type (mediaType : string) : Prop :=
  case_variant "image/heic" mediaType \/ case_variant "image/heif" mediaType.

(* ================================================================== *)
(** * Part III. Notions used by the proofs *)
(* ================================================================== *)

(** ** Binary64 values as rationals *)

Definition pow2 (e : Z) : Q := Qpower 2 e.

(** The position of [x] in the unit interval that starts at [m]. *)
Definition inbetween (x : Q) (m : Z) (l : location) : Prop :=
  match l with
  | loc_Exact => (x == inject_Z m)%Q
  | loc_Inexact Lt => (inject_Z m < x /\ x < inject_Z m + (1 # 2))%Q
  | loc_Inexact Eq => (x == inject_Z m + (1 # 2))%Q
  | loc_Inexact Gt => (inject_Z m + (1 # 2) < x /\ x < inject_Z m + 1)%Q
  end.

Definition located (x : Q) (mrs : shr_record) : Prop :=
  inbetween x (shr_m mrs) (loc_of_shr_record mrs).

(** [f] is a positive binary64 value with a full 53-bit mantissa, an
    exponent between [lo] and [hi], and the rational value [v]. *)
Definition canon (f : spec_float) (v : Q) (lo hi : Z) : Prop :=
  exists m e, f = S754_finite false m e
    /\ Z.pos (digits2_pos m) = 53 /\ lo <= e <= hi
    /\ (inject_Z (Z.pos m) * pow2 e == v)%Q.

(** [v] is a rounding of [X] to binary64: within half a unit in the last
    place, and on the same side of every integer below 2^53. *)
Definition rounds_to (v X : Q) : Prop :=
  (v - X <= X * pow2 (-53))%Q /\ (X - v <= X * pow2 (-53))%Q
  /\ (forall K : Z, 0 < K < 2 ^ 53 -> (X <= inject_Z K)%Q -> (v <= inject_Z K)%Q)
  /\ (forall K : Z, 0 < K < 2 ^ 53 -> (inject_Z K <= X)%Q -> (inject_Z K <= v)%Q).

(** ** Tables over the code units *)

Definition all_units : list ascii := map ascii_of_nat (seq 0 256).

Definition pattern_units : list ascii := list_ascii_of_string ".heicfimag/".

Definition same_letterb (p c : ascii) : bool :=
  Ascii.eqb c p || Ascii.eqb c (uppercase_of p).

(** A pattern made of the characters of the extensions and media types. *)
Definition plain_pattern (pattern : string) : Prop :=
  forallb (fun p => existsb (Ascii.eqb p) pattern_units)
          (list_ascii_of_string pattern) = true.

(** ** Classes of values and of events *)

(** [undefined] and [null], the values without properties. *)
Definition nullish (v : JsValue) : bool :=
  match v with VUndefined | VNull => true | _ => false end.

Definition is_decoder_call (ev : Event) : bool :=
  match ev with DecoderCall _ => true | _ => false end.

Definition is_console_error (ev : Event) : bool :=
  match ev with ConsoleError _ _ => true | _ => false end.

(** The effects of the second step: reading, loading, drawing, encoding. *)
Definition is_resize_event (ev : Event) : bool :=
  match ev with
  | ReadAsDataURL _ | ImageLoad _ | DrawImage _ _ _ | ToDataURL _ _ => true
  | _ => false
  end.

Definition is_output_event (ev : Event) : bool :=
  match ev with DrawImage _ _ _ | ToDataURL _ _ => true | _ => false end.

(** The event is not the reading of a file that [isHeicFile] detects. *)
Definition reads_no_heic (ev : Event) : bool :=
  match ev with ReadAsDataURL f => negb (isHeicFile (VFile f)) | _ => true end.

(** ** The two asynchronous functions, case by case *)

(** What the handler of [convertHeicToJpeg] makes of a missing result. *)
Definition no_result_outcome (heicFile : File) : Async JsValue :=
  ([DecoderCall (convert_request heicFile);
    ConsoleError "HEIC conversion error:" NoResult],
   Rejected (ConversionFailed "Conversion returned no result")).

(** [convertHeicToJpeg] once [heicConverter] is bound to [d]; lemma
    [convertHeicToJpeg_with] proves it equal to the function. *)
Definition conversion_with (env : Env) (heicFile : File) (d : Decoder)
  : Async JsValue :=
  match d (convert_request heicFile) with
  | Fulfilled r =>
      if truthy (first_result r)
      then ([DecoderCall (convert_request heicFile)],
            Fulfilled (VFile (jpeg_handle env heicFile (first_result r))))
      else no_result_outcome heicFile
  | Rejected e =>
      ([DecoderCall (convert_request heicFile);
        ConsoleError "HEIC conversion error:" e],
       Rejected (if nullish e then CannotReadMessage e
                 else ConversionFailed (ToString (message_or_error e))))
  end.

(** The second step of [resizeAndConvertToJpeg] on a source that is set
    on the image, and on the processed input; lemmas [resize_plain] and
    [resize_heic] prove them equal to the function. *)
Definition load_outcome (env : Env) (src : string) (maxSize : Z)
    (quality : spec_float) : Async string :=
  match Image_decode env src with
  | None => ([ImageLoad src], Rejected DecodeFailure)
  | Some (w, h) =>
      let '(width, height) := target_dimensions w h maxSize in
      ([ImageLoad src; DrawImage src width height;
        ToDataURL "image/jpeg" quality],
       Fulfilled (canvas_toDataURL env src width height "image/jpeg" quality))
  end.

Definition resize_stage (env : Env) (processedInput : JsValue) (maxSize : Z)
    (quality : spec_float) : Async string :=
  match processedInput with
  | VFile f =>
      match FileReader_result env f with
      | None => ([ReadAsDataURL f], Rejected ReadFailure)
      | Some src =>
          let '(t, r) := load_outcome env src maxSize quality in
          (ReadAsDataURL f :: t, r)
      end
  | VString s => load_outcome env s maxSize quality
  | _ => ([], Rejected InvalidInput)
  end.

(** ** Proof steps that recur *)

(** A product of two non-negative linear terms. *)
Ltac q_nonneg := apply Qmult_le_0_compat; lra.

(** The case analysis on the two global bindings that every proof about
    [convertHeicToJpeg] starts with. *)
Ltac bindings env d w :=
  unfold convertHeicToJpeg, heicConverter;
  destruct (heic2any env) as [d|];
  [|destruct (window env) as [w|]; [destruct (window_heic2any w) as [d|]|]];
  cbn [typeof_undefined negb andb].

(* ================================================================== *)
(** * Part IV. Binary64 division and multiplication are correctly rounded *)
(* ================================================================== *)

(** ** Powers of two *)

Lemma pow2_pos e : (0 < pow2 e)%Q.
Proof. apply Qpower_0_lt. reflexivity. Qed.

Lemma pow2_add a b : (pow2 (a + b) == pow2 a * pow2 b)%Q.
Proof. apply Qpower_plus. discriminate. Qed.

Lemma pow2_0 : (pow2 0 == 1)%Q.
Proof. reflexivity. Qed.

Lemma pow2_1 : (pow2 1 == 2)%Q.
Proof. reflexivity. Qed.

Lemma pow2_m1 : (pow2 (-1) == 1 # 2)%Q.
Proof. reflexivity. Qed.

Lemma pow2_m52 : (pow2 (-52) == 1 # 4503599627370496)%Q.
Proof. reflexivity. Qed.

Lemma pow2_m53 : (pow2 (-53) == 1 # 9007199254740992)%Q.
Proof. reflexivity. Qed.

Lemma pow2_inject n : 0 <= n -> (pow2 n == inject_Z (2 ^ n))%Q.
Proof. intros H. unfold pow2. now rewrite Zpower_Qpower. Qed.

Lemma pow2_cancel e : (pow2 e * pow2 (- e) == 1)%Q.
Proof. rewrite <- pow2_add, Z.add_opp_diag_r. reflexivity. Qed.

Lemma pow2_le a b : a <= b -> (pow2 a <= pow2 b)%Q.
Proof. intros H. apply Qpower_le_compat_l; [assumption | discriminate]. Qed.

Lemma inject_Z_pos z : 0 < z -> (0 < inject_Z z)%Q.
Proof. intros H. change 0%Q with (inject_Z 0). now rewrite <- Zlt_Qlt. Qed.

Lemma inject_Z_xO p : (inject_Z (Z.pos p~0) == 2 * inject_Z (Z.pos p))%Q.
Proof. change (Z.pos p~0) with (2 * Z.pos p). now rewrite inject_Z_mult. Qed.

Lemma inject_Z_xI p : (inject_Z (Z.pos p~1) == 2 * inject_Z (Z.pos p) + 1)%Q.
Proof.
  change (Z.pos p~1) with (2 * Z.pos p + 1).
  now rewrite inject_Z_plus, inject_Z_mult.
Qed.

Lemma Qmake_mul a b : ((a # b) * inject_Z (Z.pos b) == inject_Z a)%Q.
Proof. unfold Qeq, inject_Z; simpl. lia. Qed.

(** ** Number of binary digits *)

Lemma digits2_bounds p :
  2 ^ (Z.pos (digits2_pos p) - 1) <= Z.pos p < 2 ^ Z.pos (digits2_pos p).
Proof.
  induction p as [p IH | p IH |]; simpl digits2_pos.
  - rewrite Pos2Z.inj_succ, (Pos2Z.inj_xI p).
    replace (Z.succ (Z.pos (digits2_pos p)) - 1)
      with (Z.succ (Z.pos (digits2_pos p) - 1)) by lia.
    rewrite !Z.pow_succ_r by lia. lia.
  - rewrite Pos2Z.inj_succ, (Pos2Z.inj_xO p).
    replace (Z.succ (Z.pos (digits2_pos p)) - 1)
      with (Z.succ (Z.pos (digits2_pos p) - 1)) by lia.
    rewrite !Z.pow_succ_r by lia. lia.
  - simpl. lia.
Qed.

Lemma digits2_ge p k :
  0 <= k -> 2 ^ k <= Z.pos p -> k + 1 <= Z.pos (digits2_pos p).
Proof.
  intros Hk H. pose proof (digits2_bounds p) as [_ Du].
  destruct (Z.lt_ge_cases k (Z.pos (digits2_pos p))) as [|N]; [lia|].
  assert (2 ^ Z.pos (digits2_pos p) <= 2 ^ k) by (apply Z.pow_le_mono_r; lia).
  lia.
Qed.

Lemma digits2_le p k :
  0 <= k -> Z.pos p < 2 ^ k -> Z.pos (digits2_pos p) <= k.
Proof.
  intros Hk H. pose proof (digits2_bounds p) as [Dl _].
  destruct (Z.le_gt_cases (Z.pos (digits2_pos p)) k) as [|N]; [lia|].
  assert (2 ^ k <= 2 ^ (Z.pos (digits2_pos p) - 1))
    by (apply Z.pow_le_mono_r; lia).
  lia.
Qed.

Lemma digits2_unique p k :
  0 < k -> 2 ^ (k - 1) <= Z.pos p < 2 ^ k -> Z.pos (digits2_pos p) = k.
Proof.
  intros Hk [Hl Hu].
  pose proof (digits2_ge p (k - 1) ltac:(lia) Hl).
  pose proof (digits2_le p k ltac:(lia) Hu). lia.
Qed.

Lemma mantissa53_bounds m :
  Z.pos (digits2_pos m) = 53 -> 2 ^ 52 <= Z.pos m < 2 ^ 53.
Proof.
  intros D. pose proof (digits2_bounds m) as H. rewrite D in H. exact H.
Qed.

Lemma div_pow2_bounds p :
  53 <= Z.pos (digits2_pos p) ->
  2 ^ 52 <= Z.pos p / 2 ^ (Z.pos (digits2_pos p) - 53) < 2 ^ 53.
Proof.
  intros Hd. pose proof (digits2_bounds p) as [Dl Du].
  set (d := Z.pos (digits2_pos p)) in *.
  assert (Hn : 0 < 2 ^ (d - 53)) by (apply Z.pow_pos_nonneg; lia).
  replace (d - 1) with (52 + (d - 53)) in Dl by lia.
  replace d with (53 + (d - 53)) in Du at 1 by lia.
  rewrite Z.pow_add_r in Dl, Du by lia.
  split.
  - apply Z.div_le_lower_bound; lia.
  - apply Z.div_lt_upper_bound; lia.
Qed.

Lemma iter_xO p n : Z.pos (Pos.iter xO p n) = Z.pos p * 2 ^ Z.pos n.
Proof.
  induction n as [|n IH] using Pos.peano_ind.
  - simpl. lia.
  - rewrite Pos.iter_succ, Pos2Z.inj_xO, IH, Pos2Z.inj_succ, Z.pow_succ_r
      by lia.
    lia.
Qed.

Lemma fexp_normal e : -1074 <= e - 53 -> fexp 53 1024 e = e - 53.
Proof. intros H. unfold fexp, emin. lia. Qed.

(** ** Shifting right keeps track of the discarded bits *)

Lemma inbetween_ext x y m l : (x == y)%Q -> inbetween x m l -> inbetween y m l.
Proof. intros E. destruct l as [|[]]; simpl; lra. Qed.

Lemma located_of_loc x m l :
  inbetween x m l -> located x (shr_record_of_loc m l).
Proof. unfold located. destruct l as [|[]]; simpl; trivial. Qed.

Lemma shr_m_of_loc m l : shr_m (shr_record_of_loc m l) = m.
Proof. destruct l as [|[]]; reflexivity. Qed.

Lemma shr_1_located x mrs :
  0 <= shr_m mrs -> located x mrs ->
  located (x * (1 # 2)) (shr_1 mrs) /\ shr_m (shr_1 mrs) = shr_m mrs / 2.
Proof.
  destruct mrs as [m r s]; unfold located; simpl shr_m.
  intros Hm H.
  destruct m as [|[p|p|]|]; try lia.
  - destruct r, s; simpl in *; split; trivial;
      change (inject_Z 0) with 0%Q in *; lra.
  - split.
    + pose proof (inject_Z_xI p) as E.
      destruct r, s; simpl in *; lra.
    + simpl shr_1. destruct r, s; simpl shr_m;
        rewrite Pos2Z.inj_xI; apply Z.div_unique with 1; lia.
  - split.
    + pose proof (inject_Z_xO p) as E.
      destruct r, s; simpl in *; lra.
    + simpl shr_1. destruct r, s; simpl shr_m;
        rewrite Pos2Z.inj_xO; apply Z.div_unique with 0; lia.
  - split.
    + destruct r, s; simpl in *;
        change (inject_Z 1) with 1%Q in *; change (inject_Z 0) with 0%Q in *;
        lra.
    + destruct r, s; reflexivity.
Qed.

Lemma iter_pos_shr_1 p : forall x mrs,
  0 <= shr_m mrs -> located x mrs ->
  located (x * pow2 (Z.neg p)) (iter_pos shr_1 p mrs)
  /\ shr_m (iter_pos shr_1 p mrs) = shr_m mrs / 2 ^ Z.pos p.
Proof.
  induction p as [p IH | p IH |]; intros x mrs Hm H; simpl iter_pos.
  - destruct (shr_1_located x mrs Hm H) as [H1 E1].
    assert (Hm1 : 0 <= shr_m (shr_1 mrs)) by (rewrite E1; apply Z.div_pos; lia).
    destruct (IH _ _ Hm1 H1) as [H2 E2].
    assert (Hm2 : 0 <= shr_m (iter_pos shr_1 p (shr_1 mrs)))
      by (rewrite E2; apply Z.div_pos; lia).
    destruct (IH _ _ Hm2 H2) as [H3 E3].
    split.
    + assert (E : (x * pow2 (Z.neg p~1)
                   == x * (1 # 2) * pow2 (Z.neg p) * pow2 (Z.neg p))%Q).
      { replace (Z.neg p~1) with (-1 + (Z.neg p + Z.neg p)) by lia.
        rewrite !pow2_add, pow2_m1. ring. }
      revert H3. apply inbetween_ext. now rewrite E.
    + rewrite E3, E2, E1.
      rewrite !Z.div_div by lia.
      f_equal. replace (Z.pos p~1) with (1 + (Z.pos p + Z.pos p)) by lia.
      rewrite !Z.pow_add_r by lia. lia.
  - destruct (IH _ _ Hm H) as [H2 E2].
    assert (Hm2 : 0 <= shr_m (iter_pos shr_1 p mrs))
      by (rewrite E2; apply Z.div_pos; lia).
    destruct (IH _ _ Hm2 H2) as [H3 E3].
    split.
    + assert (E : (x * pow2 (Z.neg p~0)
                   == x * pow2 (Z.neg p) * pow2 (Z.neg p))%Q).
      { replace (Z.neg p~0) with (Z.neg p + Z.neg p) by lia.
        rewrite !pow2_add. ring. }
      revert H3. apply inbetween_ext. now rewrite E.
    + rewrite E3, E2.
      rewrite !Z.div_div by lia.
      f_equal. replace (Z.pos p~0) with (Z.pos p + Z.pos p) by lia.
      rewrite !Z.pow_add_r by lia. lia.
  - destruct (shr_1_located x mrs Hm H) as [H1 E1]. split; assumption.
Qed.

Lemma shr_fexp_spec p ex lx x :
  53 <= Z.pos (digits2_pos p) ->
  -1074 <= ex + (Z.pos (digits2_pos p) - 53) ->
  inbetween x (Z.pos p) lx ->
  exists mrs,
    shr_fexp 53 1024 (Z.pos p) ex lx
    = (mrs, ex + (Z.pos (digits2_pos p) - 53))
    /\ located (x * pow2 (- (Z.pos (digits2_pos p) - 53))) mrs
    /\ shr_m mrs = Z.pos p / 2 ^ (Z.pos (digits2_pos p) - 53).
Proof.
  intros Hd He Hx. unfold shr_fexp. simpl Zdigits2.
  set (d := Z.pos (digits2_pos p)) in *.
  rewrite fexp_normal by lia.
  replace (d + ex - 53 - ex) with (d - 53) by lia.
  unfold shr.
  destruct (d - 53) as [|n|n] eqn:En; try lia.
  - exists (shr_record_of_loc (Z.pos p) lx). repeat split.
    + f_equal. lia.
    + apply located_of_loc. revert Hx. apply inbetween_ext.
      change (- 0) with 0. rewrite pow2_0. ring.
    + rewrite shr_m_of_loc. simpl. now rewrite Z.div_1_r.
  - destruct (iter_pos_shr_1 n x (shr_record_of_loc (Z.pos p) lx))
      as [H1 H2].
    + rewrite shr_m_of_loc. lia.
    + now apply located_of_loc.
    + eexists. repeat split; trivial.
      rewrite H2, shr_m_of_loc. reflexivity.
Qed.

(** ** Rounding to nearest, ties to even *)

Lemma round_nearest_even_spec x m l :
  inbetween x m l ->
  let k := round_nearest_even m l in
  (m <= k <= m + 1)
  /\ (inject_Z k - x <= 1 # 2)%Q /\ (x - inject_Z k <= 1 # 2)%Q
  /\ (forall K : Z, (x <= inject_Z K)%Q -> k <= K)
  /\ (forall K : Z, (inject_Z K <= x)%Q -> K <= k).
Proof.
  intros H k. subst k.
  assert (E1 : (inject_Z (m + 1) == inject_Z m + 1)%Q)
    by now rewrite inject_Z_plus.
  assert (Hlt : forall K, (inject_Z m < inject_Z K)%Q -> m + 1 <= K).
  { intros K HK. rewrite <- Zlt_Qlt in HK. lia. }
  assert (Hgt : forall K, (inject_Z K < inject_Z m + 1)%Q -> K <= m).
  { intros K HK. rewrite <- E1, <- Zlt_Qlt in HK. lia. }
  destruct l as [|[]]; simpl in *.
  - repeat split; try lia; try lra.
    + intros K HK. rewrite H in HK. now rewrite <- Zle_Qle in HK.
    + intros K HK. rewrite H in HK. now rewrite <- Zle_Qle in HK.
  - destruct (Z.even m); repeat split; try lia; try lra.
    + intros K HK. assert (m + 1 <= K) by (apply Hlt; lra). lia.
    + intros K HK. apply Hgt; lra.
    + intros K HK. apply Hlt; lra.
    + intros K HK. assert (K <= m) by (apply Hgt; lra). lia.
  - repeat split; try lia; try lra.
    + intros K HK. assert (m + 1 <= K) by (apply Hlt; lra). lia.
    + intros K HK. apply Hgt; lra.
  - repeat split; try lia; try lra.
    + intros K HK. apply Hlt; lra.
    + intros K HK. assert (K <= m) by (apply Hgt; lra). lia.
Qed.

(** The second [shr_fexp] of [binary_round_aux] renormalises a mantissa
    that rounding carried to 2^53, and changes nothing otherwise. *)
Lemma renormalise_spec k e1 :
  2 ^ 52 <= k <= 2 ^ 53 -> -1074 <= e1 < 971 ->
  exists m e,
    (let '(mrs, e') := shr_fexp 53 1024 k e1 loc_Exact in
     match shr_m mrs with
     | 0 => S754_zero false
     | Z.pos m =>
         if e' <=? 1024 - 53 then S754_finite false m e'
         else S754_infinity false
     | Z.neg _ => S754_nan
     end) = S754_finite false m e
    /\ Z.pos (digits2_pos m) = 53 /\ e1 <= e <= e1 + 1
    /\ (inject_Z (Z.pos m) * pow2 e == inject_Z k * pow2 e1)%Q.
Proof.
  intros Hk He.
  destruct k as [|kp|kp]; try lia.
  destruct (Z.eq_dec (Z.pos kp) (2 ^ 53)) as [Etop | Ntop].
  - assert (Dk : Z.pos (digits2_pos kp) = 54).
    { apply digits2_unique; [lia|]. rewrite Etop. simpl. lia. }
    destruct (shr_fexp_spec kp e1 loc_Exact (inject_Z (Z.pos kp)))
      as (mrs2 & E2 & _ & M2); [lia | lia | simpl; reflexivity |].
    rewrite E2, M2, Dk, Etop.
    change (2 ^ 53 / 2 ^ (54 - 53)) with (Z.pos 4503599627370496).
    cbv iota beta.
    destruct (Z.leb_spec (e1 + (54 - 53)) (1024 - 53)); try lia.
    exists 4503599627370496%positive, (e1 + (54 - 53)).
    repeat split; try lia.
    rewrite pow2_add.
    change (pow2 (54 - 53)) with (pow2 1). rewrite pow2_1.
    change (inject_Z (Z.pos 4503599627370496)) with (4503599627370496 # 1)%Q.
    change (inject_Z (2 ^ 53)) with (9007199254740992 # 1)%Q. ring.
  - assert (Dk : Z.pos (digits2_pos kp) = 53).
    { apply digits2_unique; lia. }
    destruct (shr_fexp_spec kp e1 loc_Exact (inject_Z (Z.pos kp)))
      as (mrs2 & E2 & _ & M2); [lia | lia | simpl; reflexivity |].
    rewrite E2, M2, Dk. change (2 ^ (53 - 53)) with 1. rewrite Z.div_1_r.
    cbv iota beta.
    destruct (Z.leb_spec (e1 + (53 - 53)) (1024 - 53)); try lia.
    exists kp, (e1 + (53 - 53)). repeat split; try lia.
    replace (e1 + (53 - 53)) with e1 by lia. reflexivity.
Qed.

(** [binary_round_aux] on a mantissa of at least 53 bits, away from
    underflow and overflow: the result is canonical, within half a unit in
    the last place of the exact value [x * 2^ex], and crosses no integer
    below 2^53. *)
Lemma binary_round_aux_spec p ex lx x :
  53 <= Z.pos (digits2_pos p) ->
  -1074 <= ex + (Z.pos (digits2_pos p) - 53) ->
  ex + (Z.pos (digits2_pos p) - 53) < 971 ->
  inbetween x (Z.pos p) lx ->
  exists m e,
    binary_round_aux 53 1024 false (Z.pos p) ex lx = S754_finite false m e
    /\ Z.pos (digits2_pos m) = 53
    /\ ex + (Z.pos (digits2_pos p) - 53) <= e
       <= ex + (Z.pos (digits2_pos p) - 53) + 1
    /\ rounds_to (inject_Z (Z.pos m) * pow2 e) (x * pow2 ex).
Proof.
  intros Hd Hlo Hhi Hx.
  destruct (shr_fexp_spec p ex lx x Hd Hlo Hx) as (mrs1 & E1 & L1 & M1).
  pose proof (div_pow2_bounds p Hd) as B1. rewrite <- M1 in B1.
  set (n := Z.pos (digits2_pos p) - 53) in *.
  set (e1 := ex + n) in *.
  set (x1 := (x * pow2 (- n))%Q) in *.
  unfold binary_round_aux. rewrite E1.
  destruct (round_nearest_even_spec x1 _ _ L1) as (Bk & Ek1 & Ek2 & Mk & Mk').
  set (k := round_nearest_even (shr_m mrs1) (loc_of_shr_record mrs1)) in *.
  assert (EX : (x * pow2 ex == x1 * pow2 e1)%Q).
  { unfold x1, e1. rewrite (Z.add_comm ex n), pow2_add.
    transitivity (x * (pow2 n * pow2 (- n)) * pow2 ex)%Q; [|ring].
    rewrite pow2_cancel. ring. }
  assert (Hx1 : (inject_Z (shr_m mrs1) <= x1)%Q).
  { unfold located in L1.
    destruct (loc_of_shr_record mrs1) as [|[]]; simpl in L1; lra. }
  assert (Hx52 : (inject_Z (2 ^ 52) <= x1)%Q).
  { eapply Qle_trans; [|exact Hx1]. rewrite <- Zle_Qle. lia. }
  assert (Hk52 : (inject_Z (2 ^ 52) <= inject_Z k)%Q)
    by (rewrite <- Zle_Qle; lia).
  pose proof (pow2_pos e1) as Hp.
  destruct (renormalise_spec k e1 ltac:(lia) ltac:(lia))
    as (m & e & Eres & Dm & Be & Ev).
  exists m, e. split; [exact Eres|]. split; [exact Dm|]. split; [exact Be|].
  assert (P1 : (0 <= (x1 - inject_Z (2 ^ 52)) * pow2 e1)%Q) by q_nonneg.
  assert (P2 : (0 <= ((1 # 2) - (inject_Z k - x1)) * pow2 e1)%Q) by q_nonneg.
  assert (P3 : (0 <= ((1 # 2) - (x1 - inject_Z k)) * pow2 e1)%Q) by q_nonneg.
  change (inject_Z (2 ^ 52)) with (4503599627370496 # 1)%Q in *.
  assert (EKn : forall K, e1 <= 0 ->
            (inject_Z K == inject_Z (K * 2 ^ (- e1)) * pow2 e1)%Q).
  { intros K Hneg. rewrite inject_Z_mult, <- pow2_inject by lia.
    transitivity (inject_Z K * (pow2 e1 * pow2 (- e1)))%Q; [|ring].
    rewrite pow2_cancel. ring. }
  assert (Htop : forall K, 0 < K < 2 ^ 53 ->
            (inject_Z K < 9007199254740992 # 1)%Q).
  { intros K HK. change (9007199254740992 # 1)%Q with (inject_Z (2 ^ 53)).
    rewrite <- Zlt_Qlt. lia. }
  assert (Hp1 : 0 < e1 -> (2 <= pow2 e1)%Q).
  { intros Hpos. rewrite <- pow2_1. apply pow2_le. lia. }
  unfold rounds_to. rewrite Ev, EX, pow2_m53.
  split; [lra|]. split; [lra|].
  split; intros K HK HXK; specialize (Htop K HK);
    rewrite EX in HXK; rewrite Ev;
    destruct (Z.le_gt_cases e1 0) as [Hneg | Hpos].
  - (* an integer bound above, on the grid of the result *)
    assert (Hk : k <= K * 2 ^ (- e1)).
    { apply Mk. rewrite (EKn K Hneg) in HXK.
      apply (Qmult_le_r _ _ (pow2 e1)); assumption. }
    rewrite (EKn K Hneg).
    apply Qmult_le_compat_r; [now rewrite <- Zle_Qle | lra].
  - (* the result is at least 2^53: no such bound *)
    exfalso. specialize (Hp1 Hpos).
    assert (P4 : (0 <= (x1 - (4503599627370496 # 1)) * (pow2 e1 - 2))%Q)
      by q_nonneg.
    lra.
  - (* an integer bound below, on the grid of the result *)
    assert (Hk : K * 2 ^ (- e1) <= k).
    { apply Mk'. rewrite (EKn K Hneg) in HXK.
      apply (Qmult_le_r _ _ (pow2 e1)); assumption. }
    rewrite (EKn K Hneg).
    apply Qmult_le_compat_r; [now rewrite <- Zle_Qle | lra].
  - (* the result is at least 2^53, above every such bound *)
    specialize (Hp1 Hpos).
    assert (P4 : (0 <= (inject_Z k - (4503599627370496 # 1)) * (pow2 e1 - 2))%Q)
      by q_nonneg.
    lra.
Qed.

Lemma rounds_to_ext v v' X X' :
  (v == v')%Q -> (X == X')%Q -> rounds_to v X -> rounds_to v' X'.
Proof.
  intros Ev EX (H1 & H2 & H3 & H4). unfold rounds_to.
  rewrite <- Ev, <- EX. repeat split; trivial.
  - intros K HK HX. rewrite <- Ev. apply H3; trivial. now rewrite EX.
  - intros K HK HX. rewrite <- Ev. apply H4; trivial. now rewrite EX.
Qed.

Lemma canon_pos f v lo hi : canon f v lo hi -> (0 < v)%Q.
Proof.
  intros (m & e & _ & _ & _ & E). rewrite <- E.
  apply Qmult_lt_0_compat; [reflexivity | apply pow2_pos].
Qed.

(** ** Integers below 2^53 are Numbers *)

Lemma of_Z_spec z :
  0 < z < 2 ^ 53 -> canon (F64.of_Z z) (inject_Z z) (-52) 1.
Proof.
  intros Hz. destruct z as [|p|p]; try lia.
  unfold F64.of_Z, binary_normalize, binary_round, F64.prec, F64.emax.
  pose proof (digits2_bounds p) as [Dl Du].
  set (d := Z.pos (digits2_pos p)) in *.
  assert (Hd : 1 <= d <= 53).
  { split; [unfold d; lia|]. apply digits2_le; lia. }
  replace (d + 0) with d by lia.
  unfold fexp, emin.
  replace (Z.max (d - 53) (3 - 1024 - 53)) with (d - 53) by lia.
  unfold shl_align.
  assert (Hsh : exists mz,
    (match d - 53 - 0 with
     | Z.neg s => (Pos.iter xO p s, d - 53)
     | _ => (p, 0)
     end) = (mz, d - 53) /\ Z.pos mz = Z.pos p * 2 ^ (53 - d)).
  { destruct (d - 53 - 0) as [|s|s] eqn:Es; try lia.
    - exists p. split; [f_equal; lia|].
      replace (53 - d) with 0 by lia. lia.
    - exists (Pos.iter xO p s). split; trivial.
      rewrite iter_xO. f_equal. f_equal. lia. }
  destruct Hsh as (mz & -> & Emz).
  assert (Dmz : Z.pos (digits2_pos mz) = 53).
  { apply digits2_unique; [lia|]. rewrite Emz.
    assert (T : 0 < 2 ^ (53 - d)) by (apply Z.pow_pos_nonneg; lia).
    assert (E52 : 2 ^ (53 - 1) = 2 ^ (d - 1) * 2 ^ (53 - d))
      by (rewrite <- Z.pow_add_r by lia; f_equal; lia).
    assert (E53 : 2 ^ 53 = 2 ^ d * 2 ^ (53 - d))
      by (rewrite <- Z.pow_add_r by lia; f_equal; lia).
    rewrite E52, E53. nia. }
  destruct (binary_round_aux_spec mz (d - 53) loc_Exact (inject_Z (Z.pos mz)))
    as (m & e & Eres & Dm & Be & _ & _ & Hup & Hdn);
    [lia | lia | lia | simpl; reflexivity |].
  assert (EX : (inject_Z (Z.pos mz) * pow2 (d - 53) == inject_Z (Z.pos p))%Q).
  { assert (Hn : 0 <= 53 - d) by lia.
    rewrite Emz, inject_Z_mult, <- (pow2_inject (53 - d) Hn).
    transitivity (inject_Z (Z.pos p) * (pow2 (d - 53) * pow2 (- (d - 53))))%Q.
    - replace (- (d - 53)) with (53 - d) by lia. ring.
    - rewrite pow2_cancel. ring. }
  exists m, e. split; [exact Eres|]. split; [exact Dm|]. split; [lia|].
  apply Qle_antisym.
  - apply Hup; [lia|]. rewrite EX. apply Qle_refl.
  - apply Hdn; [lia|]. rewrite EX. apply Qle_refl.
Qed.

(** ** Comparison *)

(** On canonical values, [<] on Numbers is [<] on the rationals. *)
Lemma canon_ltb f1 v1 lo1 hi1 f2 v2 lo2 hi2 :
  canon f1 v1 lo1 hi1 -> canon f2 v2 lo2 hi2 ->
  (SFltb f1 f2 = true <-> (v1 < v2)%Q).
Proof.
  intros (m1 & e1 & -> & D1 & _ & E1) (m2 & e2 & -> & D2 & _ & E2).
  pose proof (mantissa53_bounds m1 D1) as B1.
  pose proof (mantissa53_bounds m2 D2) as B2.
  assert (Q1 : (inject_Z (2 ^ 52) <= inject_Z (Z.pos m1)
                /\ inject_Z (Z.pos m1) < inject_Z (2 ^ 53))%Q)
    by (rewrite <- Zle_Qle, <- Zlt_Qlt; lia).
  assert (Q2 : (inject_Z (2 ^ 52) <= inject_Z (Z.pos m2)
                /\ inject_Z (Z.pos m2) < inject_Z (2 ^ 53))%Q)
    by (rewrite <- Zle_Qle, <- Zlt_Qlt; lia).
  change (inject_Z (2 ^ 52)) with (4503599627370496 # 1)%Q in *.
  change (inject_Z (2 ^ 53)) with (9007199254740992 # 1)%Q in *.
  pose proof (pow2_pos e1) as P1. pose proof (pow2_pos e2) as P2.
  assert (Step : forall a b x y, a < b ->
            (4503599627370496 # 1 <= y)%Q -> (x < 9007199254740992 # 1)%Q ->
            (x * pow2 a < y * pow2 b)%Q).
  { intros a b x y Hab Hy Hx.
    assert (H2 : (2 * pow2 a <= pow2 b)%Q).
    { rewrite <- pow2_1, <- pow2_add. apply pow2_le. lia. }
    pose proof (pow2_pos a) as Pa.
    assert (0 < ((9007199254740992 # 1) - x) * pow2 a)%Q
      by (apply Qmult_lt_0_compat; lra).
    assert (0 <= (y - (4503599627370496 # 1)) * pow2 b)%Q by q_nonneg.
    lra. }
  unfold SFltb, SFcompare. rewrite <- E1, <- E2.
  destruct (Z.compare_spec e1 e2) as [<- | L | G].
  - rewrite Pos.compare_cont_spec. simpl Pos.switch_Eq.
    destruct (Pos.compare_spec m1 m2) as [-> | L | G].
    + split; [discriminate | lra].
    + split; [intros _ | reflexivity].
      apply Qmult_lt_compat_r; [exact P1|]. rewrite <- Zlt_Qlt. lia.
    + split; [discriminate|]. intros H. exfalso.
      assert (inject_Z (Z.pos m1) < inject_Z (Z.pos m2))%Q
        by (apply (Qmult_lt_r _ _ (pow2 e1)); assumption).
      rewrite <- Zlt_Qlt in H0. lia.
  - split; [intros _ | reflexivity]. apply Step; tauto.
  - split; [discriminate|]. intros H. exfalso.
    assert (inject_Z (Z.pos m2) * pow2 e2 < inject_Z (Z.pos m1) * pow2 e1)%Q
      by (apply Step; tauto).
    lra.
Qed.

(** So the comparisons of the source, between integers below 2^53, are the
    integer comparisons. *)
Lemma gt_of_Z a b :
  0 < a < 2 ^ 53 -> 0 < b < 2 ^ 53 ->
  F64.gt (F64.of_Z a) (F64.of_Z b) = (a >? b).
Proof.
  intros Ha Hb. unfold F64.gt.
  pose proof (canon_ltb _ _ _ _ _ _ _ _ (of_Z_spec b Hb) (of_Z_spec a Ha)) as H.
  rewrite <- Zlt_Qlt in H.
  destruct (Z.gtb_spec a b) as [G | NG].
  - apply H. lia.
  - apply not_true_is_false. intros T. apply H in T. lia.
Qed.

(** ** Multiplication *)

Lemma mul_spec f1 v1 lo1 hi1 f2 v2 lo2 hi2 :
  canon f1 v1 lo1 hi1 -> canon f2 v2 lo2 hi2 ->
  -1074 <= lo1 + lo2 + 52 -> hi1 + hi2 + 53 < 971 ->
  exists v, canon (F64.mul f1 f2) v (lo1 + lo2 + 52) (hi1 + hi2 + 54)
            /\ rounds_to v (v1 * v2).
Proof.
  intros (m1 & e1 & -> & D1 & R1 & E1) (m2 & e2 & -> & D2 & R2 & E2) Hlo Hhi.
  pose proof (mantissa53_bounds m1 D1) as B1.
  pose proof (mantissa53_bounds m2 D2) as B2.
  unfold F64.mul, SFmul, F64.prec, F64.emax. simpl xorb.
  assert (Bl : 2 ^ 104 <= Z.pos (m1 * m2)).
  { rewrite Pos2Z.inj_mul. change (2 ^ 104) with (2 ^ 52 * 2 ^ 52). nia. }
  assert (Bu : Z.pos (m1 * m2) < 2 ^ 106).
  { rewrite Pos2Z.inj_mul. change (2 ^ 106) with (2 ^ 53 * 2 ^ 53). nia. }
  assert (Dl := digits2_ge _ 104 ltac:(lia) Bl).
  assert (Du := digits2_le _ 106 ltac:(lia) Bu).
  destruct (binary_round_aux_spec (m1 * m2) (e1 + e2) loc_Exact
              (inject_Z (Z.pos (m1 * m2))))
    as (m & e & Eres & Dm & Be & HR); [lia | lia | lia | simpl; reflexivity |].
  exists (inject_Z (Z.pos m) * pow2 e)%Q. split.
  - exists m, e. repeat split; trivial; try lia; try reflexivity.
  - revert HR. apply rounds_to_ext; [reflexivity|].
    rewrite Pos2Z.inj_mul, inject_Z_mult, pow2_add, <- E1, <- E2. ring.
Qed.

(** ** Division *)

(** The location that [SFdiv_core_binary] derives from the remainder. *)
Lemma new_location_spec m2 r q x :
  0 < m2 -> 0 <= r < m2 ->
  ((x - inject_Z q) * inject_Z m2 == inject_Z r)%Q ->
  inbetween x q (new_location m2 r).
Proof.
  intros Hm Hr E.
  pose proof (inject_Z_pos m2 Hm) as HM.
  assert (HR : (0 <= inject_Z r)%Q)
    by (change 0%Q with (inject_Z 0); rewrite <- Zle_Qle; lia).
  assert (HRM : (inject_Z r < inject_Z m2)%Q) by (rewrite <- Zlt_Qlt; lia).
  assert (E2 : (inject_Z (2 * r) == 2 * inject_Z r)%Q)
    by now rewrite inject_Z_mult.
  set (dl := (x - inject_Z q)%Q) in *.
  assert (Hlo : (0 < inject_Z r -> 0 < dl)%Q).
  { intros Hp. destruct (Qlt_le_dec 0 dl) as [|N]; trivial. exfalso.
    assert (dl * inject_Z m2 <= 0 * inject_Z m2)%Q
      by (apply Qmult_le_compat_r; lra).
    lra. }
  assert (Hhi : (dl < 1)%Q).
  { destruct (Qlt_le_dec dl 1) as [|N]; trivial. exfalso.
    assert (1 * inject_Z m2 <= dl * inject_Z m2)%Q
      by (apply Qmult_le_compat_r; lra).
    lra. }
  assert (Hlt : (2 * inject_Z r < inject_Z m2 -> dl < 1 # 2)%Q).
  { intros Hp. destruct (Qlt_le_dec dl (1 # 2)) as [|N]; trivial. exfalso.
    assert ((1 # 2) * inject_Z m2 <= dl * inject_Z m2)%Q
      by (apply Qmult_le_compat_r; lra).
    lra. }
  assert (Hgt : (inject_Z m2 < 2 * inject_Z r -> (1 # 2) < dl)%Q).
  { intros Hp. destruct (Qlt_le_dec (1 # 2) dl) as [|N]; trivial. exfalso.
    assert (dl * inject_Z m2 <= (1 # 2) * inject_Z m2)%Q
      by (apply Qmult_le_compat_r; lra).
    lra. }
  assert (Heq : (inject_Z m2 == 2 * inject_Z r -> dl == 1 # 2)%Q).
  { intros Hp. apply (Qmult_inj_r _ _ (inject_Z m2)); lra. }
  assert (Hz : (inject_Z r == 0 -> dl == 0)%Q).
  { intros Hp. apply (Qmult_inj_r _ _ (inject_Z m2)); lra. }
  assert (Hrp : r <> 0 -> (0 < inject_Z r)%Q).
  { intros N. apply inject_Z_pos. lia. }
  unfold new_location, new_location_even, new_location_odd.
  destruct (Z.even m2) eqn:Ev; destruct (Z.eqb_spec r 0) as [Er | Nr].
  - subst r. simpl. specialize (Hz (Qeq_refl _)). unfold dl in Hz. lra.
  - specialize (Hlo (Hrp Nr)).
    destruct (Z.compare_spec (2 * r) m2) as [C | C | C]; simpl;
      unfold dl in *.
    + assert (H : (inject_Z m2 == 2 * inject_Z r)%Q)
        by (rewrite <- C, E2; reflexivity).
      specialize (Heq H). lra.
    + rewrite Zlt_Qlt, E2 in C. specialize (Hlt C). lra.
    + rewrite Zlt_Qlt, E2 in C. specialize (Hgt C). lra.
  - subst r. simpl. specialize (Hz (Qeq_refl _)). unfold dl in Hz. lra.
  - specialize (Hlo (Hrp Nr)).
    assert (Hodd : 2 * r <> m2).
    { intros <-. rewrite Z.even_mul in Ev. discriminate. }
    destruct (Z.compare_spec (2 * r + 1) m2) as [C | C | C]; simpl;
      unfold dl in *.
    + assert (C' : 2 * r < m2) by lia.
      rewrite Zlt_Qlt, E2 in C'. specialize (Hlt C'). lra.
    + assert (C' : 2 * r < m2) by lia.
      rewrite Zlt_Qlt, E2 in C'. specialize (Hlt C'). lra.
    + assert (C' : m2 < 2 * r) by lia.
      rewrite Zlt_Qlt, E2 in C'. specialize (Hgt C'). lra.
Qed.

Lemma div_spec f1 v1 lo1 hi1 f2 v2 lo2 hi2 X :
  canon f1 v1 lo1 hi1 -> canon f2 v2 lo2 hi2 ->
  (X * v2 == v1)%Q ->
  -1074 <= lo1 - hi2 - 53 -> hi1 - lo2 - 52 < 971 ->
  exists v, canon (F64.div f1 f2) v (lo1 - hi2 - 53) (hi1 - lo2 - 51)
            /\ rounds_to v X.
Proof.
  intros C1 C2. pose proof (canon_pos _ _ _ _ C2) as Hv2. revert C1 C2.
  intros (m1 & e1 & -> & D1 & R1 & E1) (m2 & e2 & -> & D2 & R2 & E2) HX Hlo Hhi.
  pose proof (mantissa53_bounds m1 D1) as B1.
  pose proof (mantissa53_bounds m2 D2) as B2.
  unfold F64.div, SFdiv, SFdiv_core_binary, F64.prec, F64.emax. simpl xorb.
  simpl Zdigits2. rewrite D1, D2.
  rewrite fexp_normal by lia.
  replace (Z.min (53 + e1 - (53 + e2) - 53) (e1 - e2)) with (e1 - e2 - 53)
    by lia.
  replace (e1 - e2 - (e1 - e2 - 53)) with 53 by lia.
  cbv iota. rewrite Z.shiftl_mul_pow2 by lia.
  set (m' := Z.pos m1 * 2 ^ 53).
  pose proof (Z_div_mod m' (Z.pos m2) ltac:(lia)) as Hdm.
  destruct (Z.div_eucl m' (Z.pos m2)) as [q r]. destruct Hdm as [Eq Hr].
  assert (Bq : 2 ^ 52 <= q < 2 ^ 54).
  { unfold m' in Eq. change (2 ^ 54) with (2 * 2 ^ 53). split; nia. }
  destruct q as [|qp|qp]; try lia.
  assert (Dl := digits2_ge _ 52 ltac:(lia) (proj1 Bq)).
  assert (Du := digits2_le _ 54 ltac:(lia) (proj2 Bq)).
  set (xq := (m' # m2)%Q).
  assert (Exq : (xq * inject_Z (Z.pos m2) == inject_Z m')%Q)
    by apply Qmake_mul.
  assert (Hloc : inbetween xq (Z.pos qp) (new_location (Z.pos m2) r)).
  { apply new_location_spec; try lia.
    rewrite Eq, inject_Z_plus, inject_Z_mult in Exq. lra. }
  destruct (binary_round_aux_spec qp (e1 - e2 - 53)
              (new_location (Z.pos m2) r) xq)
    as (m & e & Eres & Dm & Be & HR); try lia; try exact Hloc.
  rewrite Eres.
  exists (inject_Z (Z.pos m) * pow2 e)%Q. split.
  - exists m, e. repeat split; trivial; try lia; try reflexivity.
  - revert HR. apply rounds_to_ext; [reflexivity|].
    apply (Qmult_inj_r _ _ v2); [lra|].
    rewrite HX, <- E1, <- E2.
    transitivity
      (xq * inject_Z (Z.pos m2) * (pow2 (e1 - e2 - 53) * pow2 e2))%Q; [ring|].
    rewrite Exq, <- pow2_add. unfold m'.
    rewrite inject_Z_mult, <- (pow2_inject 53) by lia.
    transitivity
      (inject_Z (Z.pos m1) * (pow2 53 * pow2 (e1 - e2 - 53 + e2)))%Q; [ring|].
    rewrite <- pow2_add.
    replace (53 + (e1 - e2 - 53 + e2)) with e1 by lia. reflexivity.
Qed.

(** ** Math.round *)

Lemma Math_round_spec f v lo hi :
  canon f v lo hi ->
  (inject_Z (Math_round f) <= v + (1 # 2))%Q
  /\ (v + (1 # 2) < inject_Z (Math_round f) + 1)%Q.
Proof.
  intros (m & e & -> & _ & _ & E). unfold Math_round.
  destruct (Z.leb_spec 0 e) as [He | He].
  - rewrite <- E, inject_Z_mult, <- pow2_inject by assumption. split; lra.
  - set (T := 2 ^ (- e)).
    assert (HT : 0 < T) by (apply Z.pow_pos_nonneg; lia).
    assert (ED : 2 ^ (1 - e) = 2 * T).
    { unfold T. replace (1 - e) with (Z.succ (- e)) by lia.
      now rewrite Z.pow_succ_r by lia. }
    rewrite ED.
    set (N := 2 * Z.pos m + T).
    pose proof (Z.mul_div_le N (2 * T) ltac:(lia)) as Hl.
    pose proof (Z.mul_succ_div_gt N (2 * T) ltac:(lia)) as Hu.
    set (R := N / (2 * T)) in *.
    assert (ET : (v * inject_Z T == inject_Z (Z.pos m))%Q).
    { rewrite <- E. unfold T. rewrite <- pow2_inject by lia.
      transitivity (inject_Z (Z.pos m) * (pow2 e * pow2 (- e)))%Q; [ring|].
      rewrite pow2_cancel. ring. }
    pose proof (inject_Z_pos T HT) as HTq.
    rewrite Zle_Qle in Hl. rewrite Zlt_Qlt in Hu.
    unfold N, Z.succ in Hl, Hu.
    repeat (rewrite inject_Z_mult in Hl, Hu || rewrite inject_Z_plus in Hl, Hu).
    repeat (rewrite inject_Z_mult in Hu || rewrite inject_Z_plus in Hu).
    change (inject_Z 2) with 2%Q in *. change (inject_Z 1) with 1%Q in *.
    clearbody R N T.
    split.
    + apply (Qmult_le_r _ _ (2 * inject_Z T)); lra.
    + apply (Qmult_lt_r _ _ (2 * inject_Z T)); lra.
Qed.

(* ================================================================== *)
(** * Part V. The scaled side *)
(* ================================================================== *)

Section ScaleSide.

Variables a b m : Z.
Hypothesis Ha : 0 < a <= b.
Hypothesis Hb : b < 2 ^ 53.
Hypothesis Hm : 0 < m < 2 ^ 53.

(** The product that [Math.round] receives: at most [m], and within
    [m * 2^-52] of the exact [a * m / b]. *)
Lemma scale_side_core :
  exists v : Q,
    (inject_Z (scale_side a b m) <= v + (1 # 2))%Q
    /\ (v + (1 # 2) < inject_Z (scale_side a b m) + 1)%Q
    /\ (0 < v)%Q /\ (v <= inject_Z m)%Q
    /\ (v * inject_Z b - inject_Z a * inject_Z m
          <= inject_Z b * inject_Z m * pow2 (-52))%Q
    /\ (inject_Z a * inject_Z m - v * inject_Z b
          <= inject_Z b * inject_Z m * pow2 (-52))%Q.
Proof.
  pose proof (of_Z_spec a ltac:(lia)) as Ca.
  pose proof (of_Z_spec b ltac:(lia)) as Cb.
  pose proof (of_Z_spec m ltac:(lia)) as Cm.
  pose proof (inject_Z_pos a ltac:(lia)) as Pa.
  pose proof (inject_Z_pos b ltac:(lia)) as Pb.
  pose proof (inject_Z_pos m ltac:(lia)) as Pm.
  assert (Hab : (inject_Z a <= inject_Z b)%Q) by (rewrite <- Zle_Qle; lia).
  set (X := (a # Z.to_pos b)%Q).
  assert (EX : (X * inject_Z b == inject_Z a)%Q).
  { unfold X.
    transitivity ((a # Z.to_pos b) * inject_Z (Z.pos (Z.to_pos b)))%Q.
    - now rewrite Z2Pos.id by lia.
    - apply Qmake_mul. }
  destruct (div_spec _ _ _ _ _ _ _ _ X Ca Cb EX)
    as (v1 & C1 & E1l & E1u & M1 & _); try lia.
  assert (HX1 : (X <= 1)%Q) by (apply (Qmult_le_r _ _ (inject_Z b)); lra).
  assert (HX0 : (0 < X)%Q) by (apply (Qmult_lt_r _ _ (inject_Z b)); lra).
  assert (Hv1 : (v1 <= 1)%Q) by (apply (M1 1); [lia | exact HX1]).
  pose proof (canon_pos _ _ _ _ C1) as Pv1.
  destruct (mul_spec _ _ _ _ _ _ _ _ C1 Cm)
    as (v2 & C2 & E2l & E2u & M2 & _); try lia.
  pose proof (canon_pos _ _ _ _ C2) as Pv2.
  destruct (Math_round_spec _ _ _ _ C2) as [Rl Ru].
  fold (scale_side a b m) in Rl, Ru.
  exists v2. split; [exact Rl|]. split; [exact Ru|]. split; [exact Pv2|].
  assert (Hv1m : (v1 * inject_Z m <= inject_Z m)%Q).
  { setoid_replace (inject_Z m) with (1 * inject_Z m)%Q at 2 by ring.
    apply Qmult_le_compat_r; lra. }
  split; [apply (M2 m); [lia | exact Hv1m]|].
  rewrite pow2_m53 in *. rewrite pow2_m52.
  set (A := inject_Z a) in *. set (B := inject_Z b) in *.
  set (M := inject_Z m) in *.
  set (u := (1 # 9007199254740992)%Q) in *.
  assert (Q1 : (0 <= (M - v1 * M) * B)%Q) by q_nonneg.
  assert (Q2 : (0 <= (v1 * M * u - (v2 - v1 * M)) * B)%Q) by q_nonneg.
  assert (Q3 : (0 <= (v1 * M * u - (v1 * M - v2)) * B)%Q) by q_nonneg.
  assert (Q4 : (0 <= (X * u - (v1 - X)) * (M * B))%Q).
  { apply Qmult_le_0_compat; [lra | q_nonneg]. }
  assert (Q5 : (0 <= (X * u - (X - v1)) * (M * B))%Q).
  { apply Qmult_le_0_compat; [lra | q_nonneg]. }
  assert (Q6 : (0 <= (B - A) * M)%Q) by q_nonneg.
  assert (Q7 : (X * M * B == A * M)%Q) by (rewrite <- EX; ring).
  unfold u in *.
  split; lra.
Qed.

(** The scaled side never exceeds [maxSize]. *)
Lemma scale_side_range : 0 <= scale_side a b m <= m.
Proof.
  destruct scale_side_core as (v & Rl & Ru & Pv & Hv & _).
  set (R := scale_side a b m) in *. clearbody R.
  split.
  - assert (H : (inject_Z (-1) < inject_Z R)%Q).
    { change (inject_Z (-1)) with (-1 # 1)%Q. lra. }
    rewrite <- Zlt_Qlt in H. lia.
  - assert (H : (inject_Z R < inject_Z (m + 1))%Q).
    { rewrite inject_Z_plus. change (inject_Z 1) with 1%Q. lra. }
    rewrite <- Zlt_Qlt in H. lia.
Qed.

(** It is within one pixel of the exact quotient. *)
Lemma scale_side_near :
  m <= 2 ^ 51 -> - b <= b * scale_side a b m - a * m <= b.
Proof.
  intros Hm51.
  destruct scale_side_core as (v & Rl & Ru & Pv & Hv & El & Eu).
  set (R := scale_side a b m) in *. clearbody R.
  pose proof (inject_Z_pos b ltac:(lia)) as Pb.
  assert (Hm' : (inject_Z m <= 2251799813685248 # 1)%Q).
  { change (2251799813685248 # 1)%Q with (inject_Z (2 ^ 51)).
    rewrite <- Zle_Qle. lia. }
  rewrite pow2_m52 in El, Eu.
  set (A := inject_Z a) in *. set (B := inject_Z b) in *.
  set (M := inject_Z m) in *. set (RQ := inject_Z R) in *.
  assert (Q1 : (0 <= (v + (1 # 2) - RQ) * B)%Q) by q_nonneg.
  assert (Q2 : (0 <= (RQ + 1 - (v + (1 # 2))) * B)%Q) by q_nonneg.
  assert (Q3 : (0 <= ((2251799813685248 # 1) - M) * B)%Q) by q_nonneg.
  assert (G : (- B <= B * RQ - A * M /\ B * RQ - A * M <= B)%Q)
    by (split; lra).
  unfold A, B, M, RQ in G.
  rewrite <- !inject_Z_mult, <- inject_Z_opp in G.
  unfold Qminus in G.
  rewrite <- inject_Z_opp, <- inject_Z_plus, <- !Zle_Qle in G.
  lia.
Qed.

(** When the sizes are small enough for the rounding error of the product
    to stay below the distance between a quotient and the next half
    integer, only an exact tie can separate the result from
    floor(a * m / b + 1/2). *)
Lemma scale_side_tight :
  b * m < 2 ^ 51 ->
  2 * b * scale_side a b m <= 2 * a * m + b
  <= 2 * b * (scale_side a b m + 1).
Proof.
  intros Hbm.
  destruct scale_side_core as (v & Rl & Ru & Pv & Hv & El & Eu).
  set (R := scale_side a b m) in *. clearbody R.
  pose proof (inject_Z_pos b ltac:(lia)) as Pb.
  assert (Hbm' : (inject_Z b * inject_Z m < 2251799813685248 # 1)%Q).
  { change (2251799813685248 # 1)%Q with (inject_Z (2 ^ 51)).
    rewrite <- inject_Z_mult, <- Zlt_Qlt. lia. }
  rewrite pow2_m52 in El, Eu.
  set (A := inject_Z a) in *. set (B := inject_Z b) in *.
  set (M := inject_Z m) in *. set (RQ := inject_Z R) in *.
  assert (Q1 : (0 <= (v + (1 # 2) - RQ) * B)%Q) by q_nonneg.
  assert (Q2 : (0 < (RQ + 1 - (v + (1 # 2))) * B)%Q)
    by (apply Qmult_lt_0_compat; lra).
  assert (G : (2 * B * RQ < 2 * A * M + B + 1
               /\ 2 * A * M + B - 1 < 2 * B * (RQ + 1))%Q)
    by (split; lra).
  unfold A, B, M, RQ in G.
  change 2%Q with (inject_Z 2) in G. change 1%Q with (inject_Z 1) in G.
  unfold Qminus in G.
  repeat (rewrite <- inject_Z_opp in G || rewrite <- inject_Z_plus in G
          || rewrite <- inject_Z_mult in G).
  rewrite <- !Zlt_Qlt in G.
  lia.
Qed.

End ScaleSide.

Lemma round_half_away_pos n d :
  0 <= n -> 0 < d -> round_half_away n d = (2 * n + d) / (2 * d).
Proof.
  intros Hn Hd. unfold round_half_away.
  rewrite (Z.abs_eq n), (Z.abs_eq d) by lia.
  destruct (Z.eq_dec n 0) as [-> | N].
  - change (Z.sgn 0) with 0. rewrite Z.div_small; lia.
  - rewrite (Z.sgn_pos n), (Z.sgn_pos d) by lia. lia.
Qed.

Lemma scale_side_reference a b m :
  0 < a <= b -> 0 < m -> b * m < 2 ^ 51 ->
  reference_or_tie_below
    (scale_side a b m) (round_half_away (a * m) b) (a * m) b.
Proof.
  intros Ha Hm Hbm.
  assert (Hb : b < 2 ^ 53) by nia.
  assert (Hm' : 0 < m < 2 ^ 53) by nia.
  pose proof (scale_side_tight a b m Ha Hb Hm' Hbm) as [Hl Hu].
  rewrite round_half_away_pos by nia.
  set (R := scale_side a b m) in *. clearbody R.
  set (N := 2 * (a * m) + b).
  assert (EN : N = 2 * a * m + b) by (unfold N; lia).
  pose proof (Z.mul_div_le N (2 * b) ltac:(lia)) as Dl.
  pose proof (Z.mul_succ_div_gt N (2 * b) ltac:(lia)) as Du.
  set (r := N / (2 * b)) in *. clearbody r.
  unfold reference_or_tie_below, half_way.
  assert (Hr : r - 1 <= R <= r) by nia.
  destruct (Z.eq_dec R r) as [E | NE]; [left; exact E | right].
  assert (E : R = r - 1) by lia. split; trivial.
  symmetry. apply (Z.mod_unique _ _ (r - 1)); [lia | nia].
Qed.

(** ** The integer view of the dimension computation *)

Lemma scale_side_Number a b m :
  0 < a < 2 ^ 53 -> 0 < b < 2 ^ 53 -> 0 < m < 2 ^ 53 ->
  Math_round_Number (F64.mul (F64.div (F64.of_Z a) (F64.of_Z b)) (F64.of_Z m))
  = F64.of_Z (scale_side a b m).
Proof.
  intros Ha Hb Hm.
  pose proof (of_Z_spec a Ha) as Ca.
  pose proof (of_Z_spec b Hb) as Cb.
  pose proof (of_Z_spec m Hm) as Cm.
  pose proof (inject_Z_pos b ltac:(lia)) as Pb.
  set (X := (a # Z.to_pos b)%Q).
  assert (EX : (X * inject_Z b == inject_Z a)%Q).
  { unfold X.
    transitivity ((a # Z.to_pos b) * inject_Z (Z.pos (Z.to_pos b)))%Q.
    - now rewrite Z2Pos.id by lia.
    - apply Qmake_mul. }
  destruct (div_spec _ _ _ _ _ _ _ _ X Ca Cb EX) as (v1 & C1 & _); try lia.
  destruct (mul_spec _ _ _ _ _ _ _ _ C1 Cm) as (v2 & (m2 & e2 & E & _) & _);
    try lia.
  unfold scale_side. rewrite E. unfold Math_round_Number.
  destruct (Z.eqb_spec (Math_round (S754_finite false m2 e2)) 0) as [-> | N];
    reflexivity.
Qed.

(** X5: on integer-valued Numbers below 2^53, the computation of lines
    84-101 carried out on Numbers throughout, comparisons and
    [Math.round] included, gives integer-valued Numbers: those of
    [target_dimensions]. *)
Lemma target_dimensions_of_Z w h maxSize :
  0 < w < 2 ^ 53 -> 0 < h < 2 ^ 53 -> 0 < maxSize < 2 ^ 53 ->
  onload_dimensions (F64.of_Z w) (F64.of_Z h) (F64.of_Z maxSize)
  = (F64.of_Z (fst (target_dimensions w h maxSize)),
     F64.of_Z (snd (target_dimensions w h maxSize))).
Proof.
  intros Hw Hh Hm. unfold onload_dimensions, target_dimensions.
  rewrite !gt_of_Z by assumption.
  destruct (w >? h); [destruct (w >? maxSize) | destruct (h >? maxSize)];
    cbn [fst snd]; rewrite ?scale_side_Number by assumption; reflexivity.
Qed.

Lemma target_dimensions_of_Z_witness :
  onload_dimensions (F64.of_Z 4000) (F64.of_Z 3000) (F64.of_Z 512)
  = (F64.of_Z (fst (target_dimensions 4000 3000 512)),
     F64.of_Z (snd (target_dimensions 4000 3000 512))).
Proof.
  apply (target_dimensions_of_Z 4000 3000 512); split; reflexivity.
Defined.

(* ================================================================== *)
(** * Part VI. Target dimensions *)
(* ================================================================== *)

(** The end-to-end scenarios of the specification. *)
Example target_dimensions_4000_3000 : target_dimensions 4000 3000 512 = (512, 384).
Proof. vm_compute. reflexivity. Qed.

Example target_dimensions_300_200 : target_dimensions 300 200 512 = (300, 200).
Proof. vm_compute. reflexivity. Qed.

(** A quotient that is exactly half-way: 27 * 49 / 98 = 13.5.  The Number
    27 / 98 is just below the rational, the product just below 13.5, and
    [Math.round] gives 13 where the reference definition gives 14. *)
Example target_dimensions_98_27 :
  target_dimensions 98 27 49 = (49, 13)
  /\ spec_target_dimensions 98 27 49 = (49, 14).
Proof. split; vm_compute; reflexivity. Qed.

(** C1, as stated, fails: the computed dimensions are not the reference
    definition's for every positive width, height and maxSize. *)
Lemma target_dimensions_not_reference :
  ~ (forall w h maxSize, 0 < w -> 0 < h -> 0 < maxSize ->
       target_dimensions w h maxSize = spec_target_dimensions w h maxSize).
Proof.
  intros H. specialize (H 98 27 49 eq_refl eq_refl eq_refl).
  vm_compute in H. discriminate H.
Qed.

(** C1, amended: for positive sizes with max(w, h) * maxSize below 2^51,
    the computed dimensions are the reference definition's (maxSize and
    round(h * maxSize / w) when w > h and w > maxSize; round(w * maxSize /
    h) and maxSize when h >= w and h > maxSize; w and h otherwise, round
    being half away from zero), with one exception: the scaled dimension,
    and only it, is one less than the reference value for some of the
    sizes whose exact quotient lies half-way between two integers.  The
    dimension set to maxSize, and both dimensions of an image that is not
    scaled, are the reference values exactly. *)
Theorem target_dimensions_reference_or_tie w h maxSize :
  0 < w -> 0 < h -> 0 < maxSize -> Z.max w h * maxSize < 2 ^ 51 ->
  let '(newW, newH) := target_dimensions w h maxSize in
  let '(refW, refH) := spec_target_dimensions w h maxSize in
  if (w >? h) && (w >? maxSize)
  then newW = refW /\ newW = maxSize
       /\ reference_or_tie_below newH refH (h * maxSize) w
  else if (h >=? w) && (h >? maxSize)
  then reference_or_tie_below newW refW (w * maxSize) h
       /\ newH = refH /\ newH = maxSize
  else (newW, newH) = (refW, refH) /\ (newW, newH) = (w, h).
Proof.
  intros Hw Hh Hm Hb.
  unfold target_dimensions, spec_target_dimensions.
  destruct (Z.gtb_spec w h) as [L | P];
    destruct (Z.geb_spec h w) as [P' | L']; try lia.
  - rewrite Z.max_l in Hb by lia.
    destruct (Z.gtb_spec w maxSize) as [G | NG]; cbn [andb].
    + split; [reflexivity|]. split; [reflexivity|].
      apply scale_side_reference; lia.
    + destruct (Z.gtb_spec h maxSize); split; reflexivity.
  - rewrite Z.max_r in Hb by lia.
    destruct (Z.gtb_spec h maxSize) as [G | NG]; cbn [andb].
    + split; [|split; reflexivity].
      apply scale_side_reference; lia.
    + split; reflexivity.
Qed.

Lemma target_dimensions_reference_or_tie_witness :
  let '(newW, newH) := target_dimensions 98 27 49 in
  let '(refW, refH) := spec_target_dimensions 98 27 49 in
  if (98 >? 27) && (98 >? 49)
  then newW = refW /\ newW = 49
       /\ reference_or_tie_below newH refH (27 * 49) 98
  else if (27 >=? 98) && (27 >? 49)
  then reference_or_tie_below newW refW (98 * 49) 27
       /\ newH = refH /\ newH = 49
  else (newW, newH) = (refW, refH) /\ (newW, newH) = (98, 27).
Proof.
  apply (target_dimensions_reference_or_tie 98 27 49); reflexivity.
Defined.

(** C2: for an image of positive width and height (DOM unsigned longs) and
    a positive maxSize, when max(w, h) exceeds maxSize the larger target
    dimension is exactly maxSize and the other one is within one pixel of
    the exact aspect-preserving value; when max(w, h) is at most maxSize
    the dimensions are unchanged. *)
Theorem target_dimensions_bounded w h maxSize :
  0 < w < 2 ^ 32 -> 0 < h < 2 ^ 32 -> 0 < maxSize ->
  let '(newW, newH) := target_dimensions w h maxSize in
  (maxSize < Z.max w h ->
     Z.max newW newH = maxSize
     /\ (if w >? h then within_one_pixel newH (h * maxSize) w
         else within_one_pixel newW (w * maxSize) h))
  /\ (Z.max w h <= maxSize -> (newW, newH) = (w, h)).
Proof.
  intros Hw Hh Hm. unfold target_dimensions, within_one_pixel.
  assert (E32 : 2 ^ 32 = 4294967296) by reflexivity.
  assert (E51 : 2 ^ 51 = 2251799813685248) by reflexivity.
  assert (E53 : 2 ^ 53 = 9007199254740992) by reflexivity.
  destruct (Z.gtb_spec w h) as [L | P].
  - destruct (Z.gtb_spec w maxSize) as [G | NG].
    + pose proof (scale_side_range h w maxSize
                    ltac:(lia) ltac:(lia) ltac:(lia)) as R.
      pose proof (scale_side_near h w maxSize
                    ltac:(lia) ltac:(lia) ltac:(lia) ltac:(lia)) as N.
      split; [intros _ | lia]. split; lia.
    + split; [lia | reflexivity].
  - destruct (Z.gtb_spec h maxSize) as [G | NG].
    + pose proof (scale_side_range w h maxSize
                    ltac:(lia) ltac:(lia) ltac:(lia)) as R.
      pose proof (scale_side_near w h maxSize
                    ltac:(lia) ltac:(lia) ltac:(lia) ltac:(lia)) as N.
      split; [intros _ | lia]. split; lia.
    + split; [lia | reflexivity].
Qed.

Lemma target_dimensions_bounded_witness :
  let '(newW, newH) := target_dimensions 4000 3000 512 in
  (512 < Z.max 4000 3000 ->
     Z.max newW newH = 512
     /\ (if 4000 >? 3000 then within_one_pixel newH (3000 * 512) 4000
         else within_one_pixel newW (4000 * 512) 3000))
  /\ (Z.max 4000 3000 <= 512 -> (newW, newH) = (4000, 3000)).
Proof.
  apply (target_dimensions_bounded 4000 3000 512); split; reflexivity.
Defined.

(** Sizes within maxSize are left as they are, and the computed sizes are
    within maxSize. *)
Lemma target_dimensions_keep a b maxSize :
  Z.max a b <= maxSize -> target_dimensions a b maxSize = (a, b).
Proof.
  intros Hab. unfold target_dimensions.
  destruct (Z.gtb_spec a b); destruct (Z.gtb_spec a maxSize);
    destruct (Z.gtb_spec b maxSize); try lia; reflexivity.
Qed.

Lemma target_dimensions_within w h maxSize :
  0 < w < 2 ^ 32 -> 0 < h < 2 ^ 32 -> 0 < maxSize ->
  Z.max (fst (target_dimensions w h maxSize))
        (snd (target_dimensions w h maxSize)) <= maxSize.
Proof.
  intros Hw Hh Hm.
  assert (E32 : 2 ^ 32 = 4294967296) by reflexivity.
  assert (E53 : 2 ^ 53 = 9007199254740992) by reflexivity.
  unfold target_dimensions.
  destruct (Z.gtb_spec w h) as [L | P].
  - destruct (Z.gtb_spec w maxSize) as [G | NG]; cbn [fst snd]; [|lia].
    pose proof (scale_side_range h w maxSize
                  ltac:(lia) ltac:(lia) ltac:(lia)). lia.
  - destruct (Z.gtb_spec h maxSize) as [G | NG]; cbn [fst snd]; [|lia].
    pose proof (scale_side_range w h maxSize
                  ltac:(lia) ltac:(lia) ltac:(lia)). lia.
Qed.

(** C5: the target-dimension computation is idempotent: applied, with the
    same maxSize, to the dimensions it produced, it returns them. *)
Theorem target_dimensions_idempotent w h maxSize :
  0 < w < 2 ^ 32 -> 0 < h < 2 ^ 32 -> 0 < maxSize ->
  let d := target_dimensions w h maxSize in
  target_dimensions (fst d) (snd d) maxSize = d.
Proof.
  intros Hw Hh Hm d.
  pose proof (target_dimensions_within w h maxSize Hw Hh Hm) as Hd.
  fold d in Hd.
  rewrite (target_dimensions_keep (fst d) (snd d) maxSize Hd).
  symmetry. apply surjective_pairing.
Qed.

Lemma target_dimensions_idempotent_witness :
  let d := target_dimensions 10000 1 512 in
  target_dimensions (fst d) (snd d) 512 = d.
Proof.
  apply (target_dimensions_idempotent 10000 1 512); split; reflexivity.
Defined.

(** C9: positive input dimensions do not give positive output dimensions:
    a 10000x1 image with maxSize 512 gets the height round(512 / 10000) =
    0. *)
Theorem target_dimensions_can_be_zero :
  target_dimensions 10000 1 512 = (512, 0)
  /\ round_half_away (1 * 512) 10000 = 0
  /\ exists w h maxSize,
       1 <= w /\ 1 <= h /\ 0 < maxSize
       /\ snd (target_dimensions w h maxSize) = 0.
Proof.
  split; [vm_compute; reflexivity|]. split; [reflexivity|].
  exists 10000, 1, 512. repeat split; try lia; vm_compute; reflexivity.
Qed.

(** Beyond the bound of the amended C1 the rounding error of the product
    can exceed the distance to the next half integer: here the quotient
    is not half-way, and the computed height is one above the reference
    value. *)
Example target_dimensions_large_sizes :
  target_dimensions 90675989 89111736 35474286 = (35474286, 34862319)
  /\ spec_target_dimensions 90675989 89111736 35474286 = (35474286, 34862318)
  /\ ~ half_way (89111736 * 35474286) 90675989
  /\ 2 ^ 51 <= 90675989 * 35474286 < 2 ^ 52.
Proof.
  split; [vm_compute; reflexivity|]. split; [vm_compute; reflexivity|].
  split; [|split; [discriminate | reflexivity]].
  unfold half_way. vm_compute. discriminate.
Qed.

(* ================================================================== *)
(** * Part VII. Names and media types *)
(* ================================================================== *)

Section Strings.

Local Open Scope nat_scope.
Local Open Scope string_scope.

(** ** Code units *)

Lemma In_all_units c : In c all_units.
Proof.
  unfold all_units. rewrite <- (ascii_nat_embedding c).
  apply in_map, in_seq. pose proof (nat_ascii_bounded c). lia.
Qed.

Lemma same_letterb_spec p c : same_letterb p c = true <-> same_letter p c.
Proof.
  unfold same_letterb, same_letter.
  rewrite orb_true_iff, !Ascii.eqb_eq. reflexivity.
Qed.

(** On the characters of the patterns, [toLowerCase] and [Canonicalize]
    both identify exactly a letter and its capital: checked on the 256
    code units. *)
Lemma units_table :
  forallb (fun p =>
    forallb (fun c =>
      Bool.eqb (Ascii.eqb (JsString.toLowerCase_unit c) p) (same_letterb p c)
      && Bool.eqb (Ascii.eqb (JsString.canonicalize p) (JsString.canonicalize c))
                  (same_letterb p c))
      all_units) pattern_units = true.
Proof. vm_compute. reflexivity. Qed.

Lemma units_table_at p c :
  In p pattern_units ->
  Ascii.eqb (JsString.toLowerCase_unit c) p = same_letterb p c
  /\ Ascii.eqb (JsString.canonicalize p) (JsString.canonicalize c)
     = same_letterb p c.
Proof.
  intros Hp. pose proof units_table as T.
  rewrite forallb_forall in T. specialize (T p Hp).
  rewrite forallb_forall in T. specialize (T c (In_all_units c)).
  apply andb_true_iff in T. destruct T as [T1 T2].
  apply Bool.eqb_prop in T1, T2. split; assumption.
Qed.

Lemma plain_pattern_cons p ps :
  plain_pattern (String p ps) -> In p pattern_units /\ plain_pattern ps.
Proof.
  unfold plain_pattern. cbn [list_ascii_of_string forallb].
  rewrite andb_true_iff. intros [H1 H2]. split; trivial.
  apply existsb_exists in H1. destruct H1 as (x & Hx & E).
  apply Ascii.eqb_eq in E. now subst.
Qed.

Lemma plain_heic : plain_pattern ".heic".
Proof. reflexivity. Qed.

Lemma plain_heif : plain_pattern ".heif".
Proof. reflexivity. Qed.

Lemma plain_image_heic : plain_pattern "image/heic".
Proof. reflexivity. Qed.

Lemma plain_image_heif : plain_pattern "image/heif".
Proof. reflexivity. Qed.

(** ** Lower-casing and ignore-case matching against a pattern *)

Lemma toLowerCase_variant pattern : plain_pattern pattern ->
  forall s, JsString.toLowerCase s = pattern <-> case_variant pattern s.
Proof.
  induction pattern as [|p ps IH]; intros Hp s.
  - split.
    + destruct s; simpl; [constructor | discriminate].
    + inversion 1. reflexivity.
  - apply plain_pattern_cons in Hp. destruct Hp as [Hp1 Hp2].
    split.
    + destruct s as [|c cs]; simpl; [discriminate|].
      intros E. injection E as E1 E2. constructor.
      * apply same_letterb_spec.
        rewrite <- (proj1 (units_table_at p c Hp1)). now apply Ascii.eqb_eq.
      * now apply IH.
    + inversion 1 as [|? c ? cs L V]; subst. simpl. f_equal.
      * apply Ascii.eqb_eq. rewrite (proj1 (units_table_at p c Hp1)).
        now apply same_letterb_spec.
      * now apply IH.
Qed.

Lemma matches_literal_i_variant pattern : plain_pattern pattern ->
  forall s,
    JsString.matches_literal_i pattern s = true <-> case_variant pattern s.
Proof.
  induction pattern as [|p ps IH]; intros Hp s.
  - split.
    + destruct s; simpl; [constructor | discriminate].
    + inversion 1. reflexivity.
  - apply plain_pattern_cons in Hp. destruct Hp as [Hp1 Hp2].
    split.
    + destruct s as [|c cs]; simpl; [discriminate|].
      rewrite andb_true_iff. intros [E1 E2]. constructor.
      * apply same_letterb_spec.
        now rewrite <- (proj2 (units_table_at p c Hp1)).
      * now apply IH.
    + inversion 1 as [|? c ? cs L V]; subst. simpl.
      rewrite andb_true_iff. split.
      * rewrite (proj2 (units_table_at p c Hp1)). now apply same_letterb_spec.
      * now apply IH.
Qed.

Lemma case_variant_length pattern s :
  case_variant pattern s -> String.length s = String.length pattern.
Proof. induction 1; simpl; congruence. Qed.

Lemma toLowerCase_app a b :
  JsString.toLowerCase (a ++ b)
  = JsString.toLowerCase a ++ JsString.toLowerCase b.
Proof. induction a as [|c a IH]; simpl; [reflexivity | now rewrite IH]. Qed.

Lemma toLowerCase_app_inv s : forall p t,
  JsString.toLowerCase s = p ++ t ->
  exists stem e, s = stem ++ e /\ JsString.toLowerCase stem = p
                 /\ JsString.toLowerCase e = t.
Proof.
  induction s as [|c s IH]; intros p t E.
  - destruct p; [|discriminate]. simpl in E. subst t.
    exists "", "". repeat split.
  - destruct p as [|pc p].
    + exists "", (String c s). repeat split. exact E.
    + simpl in E. injection E as E1 E2.
      destruct (IH _ _ E2) as (stem & e & -> & E3 & E4).
      exists (String c stem), e. repeat split; trivial.
      simpl. now rewrite E1, E3.
Qed.

(** ** endsWith *)

Lemma length_app a b :
  String.length (a ++ b) = String.length a + String.length b.
Proof. induction a as [|c a IH]; simpl; [reflexivity | now rewrite IH]. Qed.

Lemma substring_whole s : substring 0 (String.length s) s = s.
Proof. induction s as [|c s IH]; simpl; [reflexivity | now rewrite IH]. Qed.

Lemma substring_after p t :
  substring (String.length p) (String.length t) (p ++ t) = t.
Proof.
  induction p as [|c p IH]; simpl; [apply substring_whole | exact IH].
Qed.

Lemma substring_split s : forall n, n <= String.length s ->
  s = substring 0 n s ++ substring n (String.length s - n) s.
Proof.
  induction s as [|c s IH]; intros n Hn.
  - destruct n; reflexivity.
  - destruct n as [|n]; simpl.
    + now rewrite substring_whole.
    + simpl in Hn. f_equal. apply IH. lia.
Qed.

Lemma endsWith_spec s t :
  JsString.endsWith s t = true <-> exists p, s = p ++ t.
Proof.
  unfold JsString.endsWith. split.
  - destruct (Nat.ltb_spec (String.length s) (String.length t)) as [|Hle];
      [discriminate|].
    intros E. apply String.eqb_eq in E.
    exists (substring 0 (String.length s - String.length t) s).
    etransitivity;
      [apply (substring_split s (String.length s - String.length t)); lia|].
    f_equal.
    replace (String.length s - (String.length s - String.length t))
      with (String.length t) by lia.
    exact E.
  - intros [p ->]. rewrite length_app.
    destruct (Nat.ltb_spec (String.length p + String.length t)
                           (String.length t)); [lia|].
    replace (String.length p + String.length t - String.length t)
      with (String.length p) by lia.
    rewrite substring_after. apply String.eqb_refl.
Qed.

Lemma endsWith_lower_variant ext : plain_pattern ext ->
  forall fileName,
    JsString.endsWith (JsString.toLowerCase fileName) ext = true
    <-> has_extension ext fileName.
Proof.
  intros Hp fileName. rewrite endsWith_spec. unfold has_extension. split.
  - intros [p E].
    destruct (toLowerCase_app_inv _ _ _ E) as (stem & e & -> & _ & Ee).
    exists stem, e. split; trivial. now apply toLowerCase_variant.
  - intros (stem & e & -> & V). exists (JsString.toLowerCase stem).
    rewrite toLowerCase_app. f_equal. now apply toLowerCase_variant.
Qed.

(** ** The replacement of the extension *)

Lemma matches_heic_ext_here_spec rest :
  JsString.matches_heic_ext_here rest = true <-> legacy_extension rest.
Proof.
  unfold JsString.matches_heic_ext_here, legacy_extension.
  rewrite orb_true_iff,
    (matches_literal_i_variant _ plain_heic),
    (matches_literal_i_variant _ plain_heif).
  reflexivity.
Qed.

Lemma legacy_extension_length e : legacy_extension e -> String.length e = 5.
Proof. intros [V | V]; apply case_variant_length in V; exact V. Qed.

Lemma replace_heic_ext_match stem e replacement :
  legacy_extension e ->
  JsString.replace_heic_ext (stem ++ e) replacement = stem ++ replacement.
Proof.
  intros He. induction stem as [|c stem IH].
  - simpl append. destruct e as [|c e].
    + apply legacy_extension_length in He. discriminate.
    + apply matches_heic_ext_here_spec in He.
      cbn [JsString.replace_heic_ext]. now rewrite He.
  - simpl append.
    assert (N : JsString.matches_heic_ext_here (String c (stem ++ e)) = false).
    { apply not_true_is_false. intros M.
      apply matches_heic_ext_here_spec, legacy_extension_length in M.
      apply legacy_extension_length in He.
      simpl in M. rewrite length_app in M. lia. }
    cbn [JsString.replace_heic_ext]. rewrite N. now rewrite IH.
Qed.

Lemma replace_heic_ext_no_match fileName replacement :
  ~ has_legacy_extension fileName ->
  JsString.replace_heic_ext fileName replacement = fileName.
Proof.
  induction fileName as [|c s IH]; intros N.
  - reflexivity.
  - assert (M : JsString.matches_heic_ext_here (String c s) = false).
    { apply not_true_is_false. intros M. apply N.
      exists "", (String c s). split; [reflexivity|].
      now apply matches_heic_ext_here_spec. }
    cbn [JsString.replace_heic_ext]. rewrite M. f_equal. apply IH.
    intros (stem & e & -> & He). apply N.
    exists (String c stem), e. now split.
Qed.

End Strings.

(* ================================================================== *)
(** * Part VIII. Detection of the legacy container *)
(* ================================================================== *)

Lemma name_test_spec (f : File) :
  name_test f = true <-> has_legacy_extension (name f).
Proof.
  unfold name_test, has_legacy_extension, legacy_extension.
  rewrite orb_true_iff,
    (endsWith_lower_variant _ plain_heic),
    (endsWith_lower_variant _ plain_heif).
  unfold has_extension. split.
  - intros [(stem & e & E & V) | (stem & e & E & V)]; exists stem, e; tauto.
  - intros (stem & e & E & [V | V]); [left | right]; now exists stem, e.
Qed.

Lemma isHeicFile_name_or_type (f : File) :
  isHeicFile (VFile f)
  = name_test f
    || (String.eqb (JsString.toLowerCase (type f)) "image/heic"
        || String.eqb (JsString.toLowerCase (type f)) "image/heif").
Proof. unfold isHeicFile, name_test. now rewrite <- !orb_assoc. Qed.

Lemma isHeicFile_iff (f : File) :
  isHeicFile (VFile f) = true
  <-> has_legacy_extension (name f) \/ has_legacy_media_type (type f).
Proof.
  rewrite isHeicFile_name_or_type, orb_true_iff, name_test_spec.
  unfold has_legacy_media_type.
  rewrite orb_true_iff, !String.eqb_eq,
    (toLowerCase_variant _ plain_image_heic),
    (toLowerCase_variant _ plain_image_heif).
  reflexivity.
Qed.

(** C3: on a File, [isHeicFile] is true exactly when the name ends in
    .heic or .heif or the declared type is image/heic or image/heif, in any
    case of the letters; on anything that is not a File it is false.  So it
    is true for photo.HEIC, for photo.heif and for every file of type
    image/heic, and false for photo.jpg with any other type and for
    strings. *)
Theorem isHeicFile_spec :
  (forall f : File,
     isHeicFile (VFile f) = true
     <-> has_legacy_extension (name f) \/ has_legacy_media_type (type f))
  /\ (forall v, instanceof_File v = false -> isHeicFile v = false)
  /\ (forall b t m, isHeicFile (VFile (mkFile b "photo.HEIC" t m)) = true)
  /\ (forall b t m, isHeicFile (VFile (mkFile b "photo.heif" t m)) = true)
  /\ (forall b n m, isHeicFile (VFile (mkFile b n "image/heic" m)) = true)
  /\ (forall b t m,
        ~ has_legacy_media_type t ->
        isHeicFile (VFile (mkFile b "photo.jpg" t m)) = false)
  /\ (forall s, isHeicFile (VString s) = false).
Proof.
  split; [exact isHeicFile_iff|].
  split.
  { intros v Hv. destruct v; trivial. discriminate Hv. }
  split.
  { intros b t m. rewrite isHeicFile_name_or_type. reflexivity. }
  split.
  { intros b t m. rewrite isHeicFile_name_or_type. reflexivity. }
  split.
  { intros b n m. rewrite isHeicFile_name_or_type. apply orb_true_r. }
  split; [|reflexivity].
  intros b t m Ht. apply not_true_is_false. intros H.
  apply isHeicFile_iff in H. destruct H as [H | H]; [|exact (Ht H)].
  apply name_test_spec in H. discriminate H.
Qed.

(* ================================================================== *)
(** * Part IX. The converter *)
(* ================================================================== *)

Lemma name_jpeg_handle env heicFile blob :
  name (jpeg_handle env heicFile blob)
  = JsString.replace_heic_ext (name heicFile) ".jpg".
Proof. reflexivity. Qed.

(** The only way to a fulfilled promise. *)
Lemma convertHeicToJpeg_fulfilled_inv env heicFile t v :
  convertHeicToJpeg env heicFile = (t, Fulfilled v) ->
  exists d convertedResult,
    heicConverter env = Callable d
    /\ d (convert_request heicFile) = Fulfilled convertedResult
    /\ truthy (first_result convertedResult) = true
    /\ t = [DecoderCall (convert_request heicFile)]
    /\ v = VFile (jpeg_handle env heicFile (first_result convertedResult)).
Proof.
  bindings env d w; try discriminate.
  all: fold (convert_request heicFile);
    unfold catch, await, emit, reject, resolve;
    destruct (d (convert_request heicFile)) as [r|e] eqn:Ed.
  all: try (destruct (get_message e); discriminate).
  all: fold (first_result r); destruct (truthy (first_result r)) eqn:Et;
    simpl; try discriminate.
  all: intros E; injection E as <- <-; exists d, r; repeat split; trivial.
Qed.

(** C6: when the conversion succeeds, the result is a File whose name is
    the original name with a final .heic or .heif, in any case, replaced by
    .jpg (so img.heic gives img.jpg), whose type is image/jpeg and whose
    lastModified is the time of the conversion.  The only effect is the
    call of the decoder, which receives the original File; the original is
    a value of the model and is not changed. *)
Theorem convertHeicToJpeg_handle env heicFile t v :
  convertHeicToJpeg env heicFile = (t, Fulfilled v) ->
  (exists jpegFile : File,
     v = VFile jpegFile
     /\ type jpegFile = "image/jpeg"%string
     /\ lastModified jpegFile = Date_now env
     /\ (forall stem e,
           name heicFile = (stem ++ e)%string -> legacy_extension e ->
           name jpegFile = (stem ++ ".jpg")%string)
     /\ (name heicFile = "img.heic"%string ->
         name jpegFile = "img.jpg"%string))
  /\ exists request,
       t = [DecoderCall request] /\ blob request = heicFile.
Proof.
  intros H. destruct (convertHeicToJpeg_fulfilled_inv _ _ _ _ H)
    as (d & r & _ & _ & _ & -> & ->).
  split.
  - eexists. split; [reflexivity|]. repeat split.
    + intros stem e E He. rewrite name_jpeg_handle, E.
      now apply replace_heic_ext_match.
    + intros E. rewrite name_jpeg_handle, E. reflexivity.
  - exists (convert_request heicFile). split; reflexivity.
Qed.

Lemma convertHeicToJpeg_handle_witness :
  (exists jpegFile : File,
     VFile (jpeg_handle (page_env (Some jpeg_decoder)) img_heic
              (VBlob "JFIF" "image/jpeg"))
     = VFile jpegFile
     /\ type jpegFile = "image/jpeg"%string
     /\ lastModified jpegFile = Date_now (page_env (Some jpeg_decoder))
     /\ (forall stem e,
           name img_heic = (stem ++ e)%string -> legacy_extension e ->
           name jpegFile = (stem ++ ".jpg")%string)
     /\ (name img_heic = "img.heic"%string ->
         name jpegFile = "img.jpg"%string))
  /\ exists request,
       [DecoderCall (convert_request img_heic)] = [DecoderCall request]
       /\ blob request = img_heic.
Proof.
  apply (convertHeicToJpeg_handle (page_env (Some jpeg_decoder)) img_heic).
  reflexivity.
Defined.

(** C10: a File detected by its declared type alone, whose name does not
    end in .heic or .heif, keeps its name through the conversion, and
    gets the type image/jpeg. *)
Theorem convertHeicToJpeg_keeps_other_names env heicFile t v :
  isHeicFile (VFile heicFile) = true ->
  name_test heicFile = false ->
  convertHeicToJpeg env heicFile = (t, Fulfilled v) ->
  has_legacy_media_type (type heicFile)
  /\ exists jpegFile : File,
       v = VFile jpegFile
       /\ name jpegFile = name heicFile
       /\ type jpegFile = "image/jpeg"%string.
Proof.
  intros Hd Hn H.
  assert (Hno : ~ has_legacy_extension (name heicFile)).
  { rewrite <- name_test_spec, Hn. discriminate. }
  split.
  - apply isHeicFile_iff in Hd. tauto.
  - destruct (convertHeicToJpeg_fulfilled_inv _ _ _ _ H)
      as (d & r & _ & _ & _ & _ & ->).
    eexists. split; [reflexivity|]. split; [|reflexivity].
    rewrite name_jpeg_handle. now apply replace_heic_ext_no_match.
Qed.

Lemma convertHeicToJpeg_keeps_other_names_witness :
  has_legacy_media_type (type scan_heic)
  /\ exists jpegFile : File,
       VFile (jpeg_handle (page_env (Some jpeg_decoder)) scan_heic
                (VBlob "JFIF" "image/jpeg"))
       = VFile jpegFile
       /\ name jpegFile = name scan_heic
       /\ type jpegFile = "image/jpeg"%string.
Proof.
  apply (convertHeicToJpeg_keeps_other_names
           (page_env (Some jpeg_decoder)) scan_heic
           [DecoderCall (convert_request scan_heic)]); reflexivity.
Defined.

(** A rejection of the decoder whose reason has a readable [message]
    property is wrapped: the new message ends with the cause's message, or
    with the cause itself when it has none. *)
Lemma convertHeicToJpeg_wraps_rejection env heicFile d e m :
  heicConverter env = Callable d ->
  d (convert_request heicFile) = Rejected e ->
  get_message e = Some m ->
  snd (convertHeicToJpeg env heicFile)
  = Rejected (ConversionFailed (ToString (if truthy m then m else e))).
Proof.
  bindings env d' w; try discriminate.
  all: intros E; injection E as ->; fold (convert_request heicFile);
    intros Ed Em; unfold catch, await, emit, reject, resolve;
    rewrite Ed; simpl; rewrite Em; reflexivity.
Qed.

(** A falsy result, or a sequence whose first element is falsy or
    missing, is wrapped in the same way. *)
Lemma convertHeicToJpeg_wraps_no_result env heicFile d r :
  heicConverter env = Callable d ->
  d (convert_request heicFile) = Fulfilled r ->
  truthy (first_result r) = false ->
  snd (convertHeicToJpeg env heicFile)
  = Rejected (ConversionFailed "Conversion returned no result").
Proof.
  bindings env d' w; try discriminate.
  all: intros E; injection E as ->; fold (convert_request heicFile);
    intros Ed Et; unfold catch, await, emit, reject, resolve;
    rewrite Ed; fold (first_result r); rewrite Et; reflexivity.
Qed.

Example empty_sequence_has_no_result : truthy (first_result (VArray [])) = false.
Proof. reflexivity. Qed.

(** C7 at a rejection whose reason is [undefined]: reading
    [error.message] in the handler throws, and the promise is rejected with
    that TypeError, which is not the wrapped conversion error. *)
Theorem convertHeicToJpeg_undefined_reason :
  convertHeicToJpeg (page_env (Some (rejecting_decoder VUndefined))) img_heic
  = ([DecoderCall (convert_request img_heic);
      ConsoleError "HEIC conversion error:" VUndefined],
     Rejected (CannotReadMessage VUndefined))
  /\ CannotReadMessage VUndefined
     = VError "TypeError"
         "Cannot read properties of undefined (reading 'message')"
  /\ forall cause, CannotReadMessage VUndefined <> ConversionFailed cause.
Proof.
  split; [reflexivity|]. split; [reflexivity|].
  intros cause. discriminate.
Qed.

(* ================================================================== *)
(** * Part X. The pipeline *)
(* ================================================================== *)

(** In a page, where [window] exists, a missing decoder is reported as
    such, before anything is read or decoded. *)
Lemma resize_dependency_missing env f w maxSize quality :
  isHeicFile (VFile f) = true ->
  heic2any env = None -> window env = Some w -> window_heic2any w = None ->
  resizeAndConvertToJpeg env (VFile f) maxSize quality
  = ([], Rejected DependencyMissing).
Proof.
  intros Hh H1 H2 H3. unfold resizeAndConvertToJpeg. rewrite Hh.
  unfold convertHeicToJpeg. rewrite H1, H2, H3. reflexivity.
Qed.

(** C4 where there is no [window] either (a worker): the guard of line 27
    is false, line 31 evaluates [window.heic2any], and the promise is
    rejected with the ReferenceError instead of the missing-dependency
    error. *)
Theorem resize_without_window :
  isHeicFile (VFile img_heic) = true
  /\ heic2any worker_env = None
  /\ window worker_env = None
  /\ resizeAndConvertToJpeg worker_env (VFile img_heic) None None
     = ([], Rejected WindowNotDefined)
  /\ WindowNotDefined <> DependencyMissing.
Proof. repeat split; try reflexivity. discriminate. Qed.

(** C8: an input that is neither a File nor a string is rejected with the
    invalid-input error, and nothing is read, decoded, drawn or encoded:
    the trace is empty. *)
Theorem resize_rejects_invalid_input env input maxSize quality :
  instanceof_File input = false -> typeof_string input = false ->
  resizeAndConvertToJpeg env input maxSize quality
  = ([], Rejected InvalidInput).
Proof.
  intros Hf Hs. unfold resizeAndConvertToJpeg.
  destruct input; try reflexivity; discriminate.
Qed.

Lemma resize_rejects_invalid_input_witness :
  resizeAndConvertToJpeg worker_env (VNumber 42) (Some 512) None
  = ([], Rejected InvalidInput).
Proof.
  apply (resize_rejects_invalid_input worker_env (VNumber 42)); reflexivity.
Defined.

(** On a string, the image is decoded and drawn at the target
    dimensions. *)
Lemma resize_string_input env s w h maxSize quality :
  Image_decode env s = Some (w, h) ->
  resizeAndConvertToJpeg env (VString s) (Some maxSize) (Some quality)
  = (let '(width, height) := target_dimensions w h maxSize in
     ([ImageLoad s; DrawImage s width height; ToDataURL "image/jpeg" quality],
      Fulfilled (canvas_toDataURL env s width height "image/jpeg" quality))).
Proof.
  intros Hd. unfold resizeAndConvertToJpeg, await, emit, resolve.
  rewrite Hd. cbn [fst snd].
  destruct (target_dimensions w h maxSize) as [width height]. reflexivity.
Qed.

(** X23: processing the output again: when the environment decodes the
    encoded canvas to an image of the size of that canvas, the second pass
    draws at the same dimensions. *)
Lemma resize_again_same_dimensions env s w h maxSize quality :
  0 < w < 2 ^ 32 -> 0 < h < 2 ^ 32 -> 0 < maxSize ->
  let d := target_dimensions w h maxSize in
  let out := canvas_toDataURL env s (fst d) (snd d) "image/jpeg" quality in
  Image_decode env out = Some d ->
  resizeAndConvertToJpeg env (VString out) (Some maxSize) (Some quality)
  = ([ImageLoad out; DrawImage out (fst d) (snd d);
      ToDataURL "image/jpeg" quality],
     Fulfilled (canvas_toDataURL env out (fst d) (snd d) "image/jpeg" quality)).
Proof.
  intros Hw Hh Hm d out Hdec.
  pose proof (target_dimensions_within w h maxSize Hw Hh Hm) as Hi.
  fold d in Hi.
  rewrite (resize_string_input env out (fst d) (snd d) maxSize quality)
    by (rewrite Hdec; f_equal; apply surjective_pairing).
  rewrite (target_dimensions_keep _ _ _ Hi). reflexivity.
Qed.

Lemma resize_again_same_dimensions_witness :
  let env := window_only_env jpeg_decoder in
  let d := target_dimensions 4000 3000 512 in
  let out := canvas_toDataURL env "data:image/png;base64,"
               (fst d) (snd d) "image/jpeg" default_quality in
  resizeAndConvertToJpeg env (VString out) (Some 512) (Some default_quality)
  = ([ImageLoad out; DrawImage out (fst d) (snd d);
      ToDataURL "image/jpeg" default_quality],
     Fulfilled (canvas_toDataURL env out (fst d) (snd d) "image/jpeg"
                  default_quality)).
Proof.
  apply (resize_again_same_dimensions (window_only_env jpeg_decoder)
           "data:image/png;base64," 4000 3000 512 default_quality);
    try (split; reflexivity); vm_compute; reflexivity.
Defined.

(* ================================================================== *)
(** * Part XI. Further properties of the target dimensions *)
(* ================================================================== *)

(** A quotient of two equal sizes is the Number 1, and the product of 1
    and an integer is that integer: nothing is rounded. *)
Lemma scale_side_same a m :
  0 < a < 2 ^ 53 -> 0 < m < 2 ^ 53 -> scale_side a a m = m.
Proof.
  intros Ha Hm.
  pose proof (of_Z_spec a Ha) as Ca.
  pose proof (of_Z_spec m Hm) as Cm.
  pose proof (inject_Z_pos a ltac:(lia)) as Pa.
  assert (EX : (1 * inject_Z a == inject_Z a)%Q) by ring.
  destruct (div_spec _ _ _ _ _ _ _ _ 1%Q Ca Ca EX)
    as (v1 & C1 & _ & _ & M1 & M1'); try lia.
  assert (Hv1 : (v1 == 1)%Q).
  { apply Qle_antisym.
    - apply (M1 1); [lia | apply Qle_refl].
    - apply (M1' 1); [lia | apply Qle_refl]. }
  destruct (mul_spec _ _ _ _ _ _ _ _ C1 Cm)
    as (v2 & C2 & _ & _ & M2 & M2'); try lia.
  assert (Hp : (v1 * inject_Z m == inject_Z m)%Q) by (rewrite Hv1; ring).
  assert (Hv2 : (v2 == inject_Z m)%Q).
  { apply Qle_antisym.
    - apply (M2 m); [lia | rewrite Hp; apply Qle_refl].
    - apply (M2' m); [lia | rewrite Hp; apply Qle_refl]. }
  destruct (Math_round_spec _ _ _ _ C2) as [Rl Ru].
  fold (scale_side a a m) in Rl, Ru.
  set (R := scale_side a a m) in *. clearbody R.
  rewrite Hv2 in Rl, Ru.
  assert (H1 : (inject_Z R < inject_Z (m + 1))%Q).
  { rewrite inject_Z_plus. change (inject_Z 1) with 1%Q. lra. }
  assert (H2 : (inject_Z (m - 1) < inject_Z R)%Q).
  { unfold Z.sub. rewrite inject_Z_plus, inject_Z_opp.
    change (inject_Z 1) with 1%Q. lra. }
  rewrite <- Zlt_Qlt in H1, H2. lia.
Qed.

(** X1: no dimension ever grows: for an image of positive width and
    height (DOM unsigned longs) and a positive maxSize, the target width
    is between 0 and the width and the target height between 0 and the
    height. *)
Theorem target_dimensions_never_grow w h maxSize :
  0 < w < 2 ^ 32 -> 0 < h < 2 ^ 32 -> 0 < maxSize ->
  let '(newW, newH) := target_dimensions w h maxSize in
  0 <= newW <= w /\ 0 <= newH <= h.
Proof.
  intros Hw Hh Hm. unfold target_dimensions.
  assert (E32 : 2 ^ 32 = 4294967296) by reflexivity.
  assert (E51 : 2 ^ 51 = 2251799813685248) by reflexivity.
  assert (E53 : 2 ^ 53 = 9007199254740992) by reflexivity.
  destruct (Z.gtb_spec w h) as [L | P].
  - destruct (Z.gtb_spec w maxSize) as [G | NG]; [|lia].
    pose proof (scale_side_range h w maxSize
                  ltac:(lia) ltac:(lia) ltac:(lia)) as R.
    pose proof (scale_side_near h w maxSize
                  ltac:(lia) ltac:(lia) ltac:(lia) ltac:(lia)) as N.
    set (S := scale_side h w maxSize) in *. clearbody S.
    split; [lia|]. split; [lia|]. nia.
  - destruct (Z.gtb_spec h maxSize) as [G | NG]; [|lia].
    pose proof (scale_side_range w h maxSize
                  ltac:(lia) ltac:(lia) ltac:(lia)) as R.
    pose proof (scale_side_near w h maxSize
                  ltac:(lia) ltac:(lia) ltac:(lia) ltac:(lia)) as N.
    set (S := scale_side w h maxSize) in *. clearbody S.
    split; [|lia]. split; [lia|]. nia.
Qed.

Lemma target_dimensions_never_grow_witness :
  let '(newW, newH) := target_dimensions 3 2 2 in
  0 <= newW <= 3 /\ 0 <= newH <= 2.
Proof.
  apply (target_dimensions_never_grow 3 2 2); split; reflexivity.
Defined.

(** X2: the orientation is kept: a landscape image (w > h) gets a target
    width that is at least the target height, any other image a target
    height that is at least the target width. *)
Theorem target_dimensions_keep_orientation w h maxSize :
  0 < w < 2 ^ 32 -> 0 < h < 2 ^ 32 -> 0 < maxSize ->
  let '(newW, newH) := target_dimensions w h maxSize in
  (h < w -> newH <= newW) /\ (w <= h -> newW <= newH).
Proof.
  intros Hw Hh Hm. unfold target_dimensions.
  assert (E32 : 2 ^ 32 = 4294967296) by reflexivity.
  assert (E53 : 2 ^ 53 = 9007199254740992) by reflexivity.
  destruct (Z.gtb_spec w h) as [L | P].
  - destruct (Z.gtb_spec w maxSize) as [G | NG]; [|lia].
    pose proof (scale_side_range h w maxSize
                  ltac:(lia) ltac:(lia) ltac:(lia)) as R. lia.
  - destruct (Z.gtb_spec h maxSize) as [G | NG]; [|lia].
    pose proof (scale_side_range w h maxSize
                  ltac:(lia) ltac:(lia) ltac:(lia)) as R. lia.
Qed.

Lemma target_dimensions_keep_orientation_witness :
  let '(newW, newH) := target_dimensions 3000 4000 512 in
  (4000 < 3000 -> newH <= newW) /\ (3000 <= 4000 -> newW <= newH).
Proof.
  apply (target_dimensions_keep_orientation 3000 4000 512); split; reflexivity.
Defined.

(** X3: when the scaled side degenerates.  For an image larger than
    maxSize, with max(w, h) * maxSize below 2^51, the scaled dimension is
    0 when twice the exact quotient is below 1 (2 * h * maxSize < w for a
    landscape image), and at least 1 when it is above 1. *)
Theorem target_dimensions_zero_threshold w h maxSize :
  0 < w -> 0 < h -> 0 < maxSize ->
  maxSize < Z.max w h -> Z.max w h * maxSize < 2 ^ 51 ->
  let '(newW, newH) := target_dimensions w h maxSize in
  (h < w -> (2 * h * maxSize < w -> newH = 0)
            /\ (w < 2 * h * maxSize -> 1 <= newH))
  /\ (w <= h -> (2 * w * maxSize < h -> newW = 0)
               /\ (h < 2 * w * maxSize -> 1 <= newW)).
Proof.
  intros Hw Hh Hm Hlt Hb. unfold target_dimensions.
  assert (E51 : 2 ^ 51 = 2251799813685248) by reflexivity.
  assert (E53 : 2 ^ 53 = 9007199254740992) by reflexivity.
  destruct (Z.gtb_spec w h) as [L | P].
  - rewrite Z.max_l in Hlt, Hb by lia.
    destruct (Z.gtb_spec w maxSize) as [G | NG]; [|lia].
    assert (Hw53 : w < 2 ^ 53) by nia.
    assert (Hm53 : 0 < maxSize < 2 ^ 53) by nia.
    pose proof (scale_side_range h w maxSize ltac:(lia) Hw53 Hm53) as R.
    pose proof (scale_side_tight h w maxSize ltac:(lia) Hw53 Hm53 Hb) as T.
    set (S := scale_side h w maxSize) in *. clearbody S.
    split; [intros _ | lia]. split; intros H; nia.
  - rewrite Z.max_r in Hlt, Hb by lia.
    destruct (Z.gtb_spec h maxSize) as [G | NG]; [|lia].
    assert (Hh53 : h < 2 ^ 53) by nia.
    assert (Hm53 : 0 < maxSize < 2 ^ 53) by nia.
    pose proof (scale_side_range w h maxSize ltac:(lia) Hh53 Hm53) as R.
    pose proof (scale_side_tight w h maxSize ltac:(lia) Hh53 Hm53 Hb) as T.
    set (S := scale_side w h maxSize) in *. clearbody S.
    split; [lia | intros _]. split; intros H; nia.
Qed.

Lemma target_dimensions_zero_threshold_witness :
  let '(newW, newH) := target_dimensions 10000 9 512 in
  (9 < 10000 -> (2 * 9 * 512 < 10000 -> newH = 0)
                /\ (10000 < 2 * 9 * 512 -> 1 <= newH))
  /\ (10000 <= 9 -> (2 * 10000 * 512 < 9 -> newW = 0)
                    /\ (9 < 2 * 10000 * 512 -> 1 <= newW)).
Proof.
  apply (target_dimensions_zero_threshold 10000 9 512); reflexivity.
Defined.

(** X4: a square image stays square: its target dimensions are both
    min(w, maxSize), for every size below 2^53. *)
Theorem target_dimensions_square w maxSize :
  0 < w < 2 ^ 53 -> 0 < maxSize < 2 ^ 53 ->
  target_dimensions w w maxSize = (Z.min w maxSize, Z.min w maxSize).
Proof.
  intros Hw Hm. unfold target_dimensions.
  rewrite (Z.gtb_ltb w w), Z.ltb_irrefl.
  destruct (Z.gtb_spec w maxSize) as [G | NG].
  - rewrite scale_side_same by assumption. now rewrite Z.min_r by lia.
  - now rewrite Z.min_l by lia.
Qed.

Lemma target_dimensions_square_witness :
  target_dimensions 3024 3024 512 = (Z.min 3024 512, Z.min 3024 512).
Proof.
  apply (target_dimensions_square 3024 512); split; reflexivity.
Defined.

(* ================================================================== *)
(** * Part XII. Further properties of the detection and of the converter *)
(* ================================================================== *)

(** ** Names *)

Lemma toLowerCase_unit_table :
  forallb (fun c =>
    Ascii.eqb (JsString.toLowerCase_unit (JsString.toLowerCase_unit c))
              (JsString.toLowerCase_unit c)) all_units = true.
Proof. vm_compute. reflexivity. Qed.

Lemma toLowerCase_idempotent s :
  JsString.toLowerCase (JsString.toLowerCase s) = JsString.toLowerCase s.
Proof.
  induction s as [|c s IH]; [reflexivity|].
  cbn [JsString.toLowerCase]. rewrite IH. f_equal.
  pose proof toLowerCase_unit_table as T.
  rewrite forallb_forall in T. specialize (T c (In_all_units c)).
  now apply Ascii.eqb_eq in T.
Qed.

(** X6: the detection does not depend on the case of the name and of the
    declared type: lower-casing both leaves the answer of [isHeicFile]
    unchanged. *)
Theorem isHeicFile_case_insensitive b n t m :
  isHeicFile (VFile (mkFile b (JsString.toLowerCase n)
                       (JsString.toLowerCase t) m))
  = isHeicFile (VFile (mkFile b n t m)).
Proof.
  unfold isHeicFile. cbn [name type].
  now rewrite !toLowerCase_idempotent.
Qed.

(** Two strings that are equal end with the same code unit. *)
Lemma append_last_unit p q s t n m c1 c2 :
  get n s = Some c1 -> get m t = Some c2 ->
  String.length s = S n -> String.length t = S m ->
  (p ++ s)%string = (q ++ t)%string -> c1 = c2.
Proof.
  intros G1 G2 L1 L2 E.
  assert (L : (String.length p + S n = String.length q + S m)%nat).
  { rewrite <- L1, <- L2, <- !length_app. now rewrite E. }
  rewrite (append_correct2 p s n) in G1.
  rewrite (append_correct2 q t m) in G2.
  rewrite E in G1.
  replace (n + String.length p)%nat with (m + String.length q)%nat in G1 by lia.
  congruence.
Qed.

Lemma jpg_name_test b stem t lm :
  name_test (mkFile b (stem ++ ".jpg")%string t lm) = false.
Proof.
  unfold name_test. cbn [name]. rewrite toLowerCase_app.
  change (JsString.toLowerCase ".jpg") with ".jpg"%string.
  apply orb_false_iff. split; apply not_true_is_false; intros H;
    apply endsWith_spec in H; destruct H as [p E];
    [ pose proof (append_last_unit _ _ ".jpg" ".heic" 3 4 "g" "c"
                    eq_refl eq_refl eq_refl eq_refl E) as A
    | pose proof (append_last_unit _ _ ".jpg" ".heif" 3 4 "g" "f"
                    eq_refl eq_refl eq_refl eq_refl E) as A ];
    discriminate A.
Qed.

Lemma jpeg_handle_name_test env heicFile blob :
  name_test (jpeg_handle env heicFile blob) = false.
Proof.
  destruct (name_test heicFile) eqn:T.
  - apply name_test_spec in T. destruct T as (stem & e & E & He).
    unfold jpeg_handle. rewrite E, (replace_heic_ext_match stem e ".jpg" He).
    apply jpg_name_test.
  - assert (N : ~ has_legacy_extension (name heicFile)).
    { rewrite <- name_test_spec, T. discriminate. }
    unfold jpeg_handle. rewrite (replace_heic_ext_no_match _ ".jpg" N).
    exact T.
Qed.

Lemma jpeg_handle_not_heic env heicFile blob :
  isHeicFile (VFile (jpeg_handle env heicFile blob)) = false.
Proof.
  rewrite isHeicFile_name_or_type, jpeg_handle_name_test. reflexivity.
Qed.

Lemma convertHeicToJpeg_fulfilled_not_heic env heicFile t v :
  convertHeicToJpeg env heicFile = (t, Fulfilled v) -> isHeicFile v = false.
Proof.
  intros H. destruct (convertHeicToJpeg_fulfilled_inv _ _ _ _ H)
    as (d & r & _ & _ & _ & _ & ->).
  apply jpeg_handle_not_heic.
Qed.

(** ** The cases of the converter *)

Lemma convertHeicToJpeg_with env heicFile d :
  heicConverter env = Callable d ->
  convertHeicToJpeg env heicFile = conversion_with env heicFile d.
Proof.
  bindings env d' w; try discriminate.
  all: intros E; injection E as ->; fold (convert_request heicFile);
    unfold conversion_with, catch, await, emit, reject, resolve,
      no_result_outcome;
    destruct (d (convert_request heicFile)) as [r|e].
  all: try (fold (first_result r); destruct (truthy (first_result r));
            reflexivity).
  all: unfold message_or_error; destruct e; reflexivity.
Qed.

(** No decoder in a page, no [window] at all, or a decoder. *)
Lemma convertHeicToJpeg_cases env heicFile :
  (heic2any env = None
   /\ (exists w, window env = Some w /\ window_heic2any w = None)
   /\ convertHeicToJpeg env heicFile = ([], Rejected DependencyMissing))
  \/ (heic2any env = None /\ window env = None
      /\ convertHeicToJpeg env heicFile = ([], Rejected WindowNotDefined))
  \/ (exists d, heicConverter env = Callable d
        /\ convertHeicToJpeg env heicFile = conversion_with env heicFile d).
Proof.
  destruct (heicConverter env) as [d| |] eqn:E.
  - right; right. exists d. split; trivial. now apply convertHeicToJpeg_with.
  - left. revert E. unfold convertHeicToJpeg, heicConverter.
    destruct (heic2any env) as [d|] eqn:E1; [discriminate|].
    destruct (window env) as [w|] eqn:E2; [|discriminate].
    destruct (window_heic2any w) as [d|] eqn:E3; [discriminate|].
    intros _. repeat split; trivial. now exists w.
  - right; left. revert E. unfold convertHeicToJpeg, heicConverter.
    destruct (heic2any env) as [d|] eqn:E1; [discriminate|].
    destruct (window env) as [w|] eqn:E2;
      [destruct (window_heic2any w); discriminate|].
    intros _. repeat split; trivial.
Qed.

Lemma conversion_with_not_missing env heicFile d :
  snd (conversion_with env heicFile d) <> Rejected DependencyMissing.
Proof.
  unfold conversion_with, no_result_outcome.
  destruct (d (convert_request heicFile)) as [r|e].
  - destruct (truthy (first_result r)); discriminate.
  - destruct (nullish e); discriminate.
Qed.

(** The trace of the converter, by its outcome. *)
Lemma convertHeicToJpeg_trace env heicFile :
  match snd (convertHeicToJpeg env heicFile) with
  | Fulfilled _ =>
      fst (convertHeicToJpeg env heicFile)
      = [DecoderCall (convert_request heicFile)]
  | Rejected _ =>
      fst (convertHeicToJpeg env heicFile) = []
      \/ exists error,
           fst (convertHeicToJpeg env heicFile)
           = [DecoderCall (convert_request heicFile);
              ConsoleError "HEIC conversion error:" error]
  end.
Proof.
  destruct (convertHeicToJpeg_cases env heicFile)
    as [(_ & _ & E) | [(_ & _ & E) | (d & _ & E)]]; rewrite E;
    try (left; reflexivity).
  unfold conversion_with, no_result_outcome.
  destruct (d (convert_request heicFile)) as [r|e];
    [destruct (truthy (first_result r)); [reflexivity|] |];
    right; eexists; reflexivity.
Qed.

Lemma convertHeicToJpeg_rejected env heicFile e :
  snd (convertHeicToJpeg env heicFile) = Rejected e ->
  e = DependencyMissing \/ e = WindowNotDefined
  \/ (exists cause, e = ConversionFailed cause)
  \/ (exists reason, nullish reason = true /\ e = CannotReadMessage reason).
Proof.
  destruct (convertHeicToJpeg_cases env heicFile)
    as [(_ & _ & E) | [(_ & _ & E) | (d & _ & E)]]; rewrite E.
  - intros H; injection H as <-. now left.
  - intros H; injection H as <-. right; now left.
  - unfold conversion_with, no_result_outcome.
    destruct (d (convert_request heicFile)) as [r|r];
      [destruct (truthy (first_result r)); [discriminate|] |
       destruct (nullish r) eqn:N];
      intros H; injection H as <-; right; right.
    + left. eexists. reflexivity.
    + right. exists r. now split.
    + left. eexists. reflexivity.
Qed.

(** X7: the converter reports the missing dependency exactly when the
    global [heic2any] is undefined and [window] exists without a
    [heic2any] property; in particular never once a decoder is bound,
    whatever that decoder does. *)
Theorem convertHeicToJpeg_dependency_missing_iff env heicFile :
  snd (convertHeicToJpeg env heicFile) = Rejected DependencyMissing
  <-> heic2any env = None
      /\ exists w, window env = Some w /\ window_heic2any w = None.
Proof.
  destruct (convertHeicToJpeg_cases env heicFile)
    as [(H1 & H2 & E) | [(H1 & H2 & E) | (d & Hd & E)]]; rewrite E.
  - split; [intros _; now split | reflexivity].
  - split; [discriminate|]. intros (_ & w & Hw & _). congruence.
  - split.
    + intros H. now apply conversion_with_not_missing in H.
    + intros (H1 & w & H2 & H3). unfold heicConverter in Hd.
      rewrite H1, H2, H3 in Hd. discriminate Hd.
Qed.

(** X8: a single attempt.  When a decoder is bound it is called exactly
    once, whatever the outcome, with the original File as [blob], the type
    image/jpeg and the quality 1; when none is bound nothing is done at
    all. *)
Theorem convertHeicToJpeg_single_attempt env heicFile :
  let request := convert_request heicFile in
  (forall d, heicConverter env = Callable d ->
     filter is_decoder_call (fst (convertHeicToJpeg env heicFile))
     = [DecoderCall request])
  /\ ((forall d, heicConverter env <> Callable d) ->
      fst (convertHeicToJpeg env heicFile) = [])
  /\ blob request = heicFile
  /\ toType request = "image/jpeg"%string
  /\ quality request = S754_finite false 4503599627370496 (-52).
Proof.
  intros request. split; [|split; [|repeat split]].
  - intros d Hd. rewrite (convertHeicToJpeg_with env heicFile d Hd).
    unfold conversion_with, no_result_outcome.
    destruct (d (convert_request heicFile)) as [r|e];
      [destruct (truthy (first_result r))|]; reflexivity.
  - intros Hn.
    destruct (convertHeicToJpeg_cases env heicFile)
      as [(_ & _ & E) | [(_ & _ & E) | (d & Hd & _)]];
      [now rewrite E | now rewrite E | now destruct (Hn d)].
Qed.

(** X9: the converter depends on the environment through the decoder that
    [heicConverter] is bound to and through the clock only: a decoder
    found as [window.heic2any] is used exactly as the same decoder found
    as the global [heic2any]. *)
Theorem convertHeicToJpeg_converter_binding env1 env2 d heicFile :
  heicConverter env1 = Callable d -> heicConverter env2 = Callable d ->
  Date_now env1 = Date_now env2 ->
  convertHeicToJpeg env1 heicFile = convertHeicToJpeg env2 heicFile.
Proof.
  intros H1 H2 Hn.
  rewrite (convertHeicToJpeg_with env1 heicFile d H1),
    (convertHeicToJpeg_with env2 heicFile d H2).
  unfold conversion_with, jpeg_handle. now rewrite Hn.
Qed.

Lemma convertHeicToJpeg_converter_binding_witness :
  convertHeicToJpeg (page_env (Some jpeg_decoder)) img_heic
  = convertHeicToJpeg (window_only_env jpeg_decoder) img_heic.
Proof.
  apply (convertHeicToJpeg_converter_binding
           (page_env (Some jpeg_decoder)) (window_only_env jpeg_decoder)
           jpeg_decoder img_heic); reflexivity.
Defined.

(** X10: a rejection of the decoder with a reason other than [undefined]
    and [null] is logged with [console.error] and wrapped: the promise is
    rejected with an Error whose message is 'Failed to convert HEIC file: '
    followed by a cause.  The cause is the reason's [message] when the
    reason is an Error with a non-empty message, and the reason itself
    when it is a string; in general it is the text of [error.message ||
    error], which the model gives for the values whose Numbers are safe
    integers. *)
Theorem convertHeicToJpeg_logs_and_wraps env heicFile d e :
  heicConverter env = Callable d ->
  d (convert_request heicFile) = Rejected e ->
  nullish e = false ->
  exists cause,
    convertHeicToJpeg env heicFile
    = ([DecoderCall (convert_request heicFile);
        ConsoleError "HEIC conversion error:" e],
       Rejected (VError "Error" ("Failed to convert HEIC file: " ++ cause)))
    /\ (forall errname message,
          e = VError errname message -> message <> ""%string ->
          cause = message)
    /\ (forall s, e = VString s -> cause = s)
    /\ (safe_numbers (message_or_error e) = true ->
        cause = ToString (message_or_error e)).
Proof.
  intros Hd He Hn. exists (ToString (message_or_error e)).
  rewrite (convertHeicToJpeg_with env heicFile d Hd).
  unfold conversion_with. rewrite He, Hn. split; [reflexivity|].
  split; [|split; [|reflexivity]].
  - intros n m -> Hm. unfold message_or_error. cbn [get_message truthy].
    destruct (String.eqb_spec m ""); [contradiction | reflexivity].
  - intros s ->. reflexivity.
Qed.

Lemma convertHeicToJpeg_logs_and_wraps_witness :
  exists cause,
    convertHeicToJpeg
      (page_env (Some (rejecting_decoder (VError "Error" "corrupt data"))))
      img_heic
    = ([DecoderCall (convert_request img_heic);
        ConsoleError "HEIC conversion error:" (VError "Error" "corrupt data")],
       Rejected (VError "Error" ("Failed to convert HEIC file: " ++ cause)))
    /\ (forall errname message,
          VError "Error" "corrupt data" = VError errname message ->
          message <> ""%string ->
          cause = message)
    /\ (forall s, VError "Error" "corrupt data" = VString s -> cause = s)
    /\ (safe_numbers (message_or_error (VError "Error" "corrupt data")) = true ->
        cause = ToString (message_or_error (VError "Error" "corrupt data"))).
Proof.
  apply (convertHeicToJpeg_logs_and_wraps
           (page_env (Some (rejecting_decoder (VError "Error" "corrupt data"))))
           img_heic (rejecting_decoder (VError "Error" "corrupt data")));
    reflexivity.
Defined.

(** X11: when the decoder returns a sequence, only its first element
    counts: a truthy first element becomes the content of the new File,
    whatever follows it; an empty sequence, or one whose first element is
    falsy, gives the wrapped 'Conversion returned no result' error even
    when a later element is usable. *)
Theorem convertHeicToJpeg_first_of_sequence env heicFile d items :
  heicConverter env = Callable d ->
  d (convert_request heicFile) = Fulfilled (VArray items) ->
  convertHeicToJpeg env heicFile
  = match items with
    | first :: _ =>
        if truthy first
        then ([DecoderCall (convert_request heicFile)],
              Fulfilled (VFile (jpeg_handle env heicFile first)))
        else no_result_outcome heicFile
    | [] => no_result_outcome heicFile
    end.
Proof.
  intros Hd He. rewrite (convertHeicToJpeg_with env heicFile d Hd).
  unfold conversion_with. rewrite He.
  destruct items as [|first rest]; reflexivity.
Qed.

Lemma convertHeicToJpeg_first_of_sequence_witness :
  convertHeicToJpeg (page_env (Some jpeg_decoder)) img_heic
  = match [VBlob "JFIF" "image/jpeg"] with
    | first :: _ =>
        if truthy first
        then ([DecoderCall (convert_request img_heic)],
              Fulfilled (VFile (jpeg_handle (page_env (Some jpeg_decoder))
                                  img_heic first)))
        else no_result_outcome img_heic
    | [] => no_result_outcome img_heic
    end.
Proof.
  apply (convertHeicToJpeg_first_of_sequence
           (page_env (Some jpeg_decoder)) img_heic jpeg_decoder);
    reflexivity.
Defined.

(** X12: the converter performs no effect other than calling the decoder
    and logging, and it logs with [console.error] exactly when a decoder
    was bound and the promise is rejected. *)
Theorem convertHeicToJpeg_logs_iff_fails env heicFile :
  forallb (fun ev => is_decoder_call ev || is_console_error ev)
    (fst (convertHeicToJpeg env heicFile)) = true
  /\ (existsb is_console_error (fst (convertHeicToJpeg env heicFile)) = true
      <-> exists d e,
            heicConverter env = Callable d
            /\ snd (convertHeicToJpeg env heicFile) = Rejected e).
Proof.
  destruct (convertHeicToJpeg_cases env heicFile)
    as [(H1 & (w & H2 & H3) & E) | [(H1 & H2 & E) | (d & Hd & E)]]; rewrite E.
  - split; [reflexivity|]. split; [discriminate|].
    intros (d & e & Hd & _). unfold heicConverter in Hd.
    rewrite H1, H2, H3 in Hd. discriminate Hd.
  - split; [reflexivity|]. split; [discriminate|].
    intros (d & e & Hd & _). unfold heicConverter in Hd.
    rewrite H1, H2 in Hd. discriminate Hd.
  - unfold conversion_with, no_result_outcome.
    destruct (d (convert_request heicFile)) as [r|e];
      [destruct (truthy (first_result r))|].
    + split; [reflexivity|]. split; [discriminate|].
      intros (d' & e & _ & H). discriminate H.
    + split; [reflexivity|]. split; [|reflexivity].
      intros _. exists d. eexists. split; [exact Hd | reflexivity].
    + split; [reflexivity|]. split; [|reflexivity].
      intros _. exists d. eexists. split; [exact Hd | reflexivity].
Qed.

(** X13: the File that a conversion produces is never detected as HEIC
    again: its name does not end in .heic or .heif and its type is
    image/jpeg, so [isHeicFile] is false on it. *)
Theorem convertHeicToJpeg_result_not_heic env heicFile t v :
  convertHeicToJpeg env heicFile = (t, Fulfilled v) ->
  isHeicFile v = false
  /\ exists jpegFile : File, v = VFile jpegFile /\ name_test jpegFile = false.
Proof.
  intros H. destruct (convertHeicToJpeg_fulfilled_inv _ _ _ _ H)
    as (d & r & _ & _ & _ & _ & ->).
  split; [apply jpeg_handle_not_heic|].
  eexists. split; [reflexivity | apply jpeg_handle_name_test].
Qed.

Lemma convertHeicToJpeg_result_not_heic_witness :
  isHeicFile (VFile (jpeg_handle (page_env (Some jpeg_decoder)) img_heic
                       (VBlob "JFIF" "image/jpeg"))) = false
  /\ exists jpegFile : File,
       VFile (jpeg_handle (page_env (Some jpeg_decoder)) img_heic
                (VBlob "JFIF" "image/jpeg")) = VFile jpegFile
       /\ name_test jpegFile = false.
Proof.
  apply (convertHeicToJpeg_result_not_heic
           (page_env (Some jpeg_decoder)) img_heic
           [DecoderCall (convert_request img_heic)]).
  reflexivity.
Defined.

(** X14: a successful conversion changes the name exactly when the name
    ended in .heic or .heif (in any case), and the new name is then one
    code unit shorter. *)
Theorem convertHeicToJpeg_renames_iff env heicFile t v :
  convertHeicToJpeg env heicFile = (t, Fulfilled v) ->
  exists jpegFile : File,
    v = VFile jpegFile
    /\ (name jpegFile = name heicFile <-> name_test heicFile = false)
    /\ (name_test heicFile = true ->
        S (String.length (name jpegFile)) = String.length (name heicFile)).
Proof.
  intros H. destruct (convertHeicToJpeg_fulfilled_inv _ _ _ _ H)
    as (d & r & _ & _ & _ & _ & ->).
  eexists. split; [reflexivity|]. rewrite name_jpeg_handle.
  destruct (name_test heicFile) eqn:T.
  - apply name_test_spec in T. destruct T as (stem & e & E & He).
    rewrite E, (replace_heic_ext_match stem e ".jpg" He).
    pose proof (legacy_extension_length e He) as L.
    assert (G : S (String.length (stem ++ ".jpg")) = String.length (stem ++ e)).
    { rewrite !length_app, L. cbn [String.length]. lia. }
    split; [|intros _; exact G].
    split; [|discriminate]. intros A. rewrite A in G. lia.
  - assert (N : ~ has_legacy_extension (name heicFile)).
    { rewrite <- name_test_spec, T. discriminate. }
    rewrite (replace_heic_ext_no_match _ ".jpg" N).
    split; [tauto | discriminate].
Qed.

Lemma convertHeicToJpeg_renames_iff_witness :
  exists jpegFile : File,
    VFile (jpeg_handle (page_env (Some jpeg_decoder)) img_heic
             (VBlob "JFIF" "image/jpeg")) = VFile jpegFile
    /\ (name jpegFile = name img_heic <-> name_test img_heic = false)
    /\ (name_test img_heic = true ->
        S (String.length (name jpegFile)) = String.length (name img_heic)).
Proof.
  apply (convertHeicToJpeg_renames_iff
           (page_env (Some jpeg_decoder)) img_heic
           [DecoderCall (convert_request img_heic)]).
  reflexivity.
Defined.

(* ================================================================== *)
(** * Part XIII. Further properties of the pipeline *)
(* ================================================================== *)

(** ** The two steps *)

Lemma isHeicFile_File input :
  isHeicFile input = true -> exists f, input = VFile f.
Proof. destruct input; try discriminate. intros _. now eexists. Qed.

(** Without a conversion the function is its second step. *)
Lemma resize_plain env input maxSize quality :
  isHeicFile input = false ->
  resizeAndConvertToJpeg env input maxSize quality
  = resize_stage env input (maxSize_or_default maxSize)
      (quality_or_default quality).
Proof.
  intros H. unfold resizeAndConvertToJpeg, resize_stage, load_outcome.
  fold (maxSize_or_default maxSize). fold (quality_or_default quality).
  destruct input as [| | | | s | | f | | |]; try reflexivity.
  - unfold await, emit, resolve, reject.
    destruct (Image_decode env s) as [[w h]|]; [|reflexivity].
    cbn [fst snd]. now destruct (target_dimensions w h _).
  - rewrite H. unfold await, emit, resolve, reject.
    destruct (FileReader_result env f) as [src|]; [|reflexivity].
    destruct (Image_decode env src) as [[w h]|]; [|reflexivity].
    cbn [fst snd]. now destruct (target_dimensions w h _).
Qed.

(** With a conversion, the second step follows it on its result. *)
Lemma resize_heic env f maxSize quality :
  isHeicFile (VFile f) = true ->
  resizeAndConvertToJpeg env (VFile f) maxSize quality
  = match convertHeicToJpeg env f with
    | (t, Fulfilled v) =>
        let '(t2, r) := resize_stage env v (maxSize_or_default maxSize)
                          (quality_or_default quality) in
        ((t ++ t2)%list, r)
    | (t, Rejected e) => (t, Rejected e)
    end.
Proof.
  intros H. unfold resizeAndConvertToJpeg at 1. rewrite H.
  fold (maxSize_or_default maxSize). fold (quality_or_default quality).
  destruct (convertHeicToJpeg env f) as [t [v|e]]; [|reflexivity].
  unfold resize_stage, load_outcome.
  destruct v as [| | | | s | | g | | |]; try reflexivity.
  - unfold await, emit, resolve, reject.
    destruct (Image_decode env s) as [[w h]|]; [|reflexivity].
    cbn [fst snd]. now destruct (target_dimensions w h _).
  - unfold await, emit, resolve, reject.
    destruct (FileReader_result env g) as [src|]; [|reflexivity].
    destruct (Image_decode env src) as [[w h]|]; [|reflexivity].
    cbn [fst snd]. now destruct (target_dimensions w h _).
Qed.

Lemma resize_stage_rejected env processedInput maxSize quality e :
  snd (resize_stage env processedInput maxSize quality) = Rejected e ->
  (e = ReadFailure \/ e = DecodeFailure \/ e = InvalidInput)
  /\ existsb is_output_event
       (fst (resize_stage env processedInput maxSize quality)) = false.
Proof.
  unfold resize_stage, load_outcome.
  destruct processedInput as [| | | | s | | f | | |];
    try (intros H; injection H as <-; split; [tauto | reflexivity]).
  - destruct (Image_decode env s) as [[w h]|];
      [destruct (target_dimensions w h maxSize); discriminate|].
    intros H; injection H as <-; split; [tauto | reflexivity].
  - destruct (FileReader_result env f) as [src|];
      [|intros H; injection H as <-; split; [tauto | reflexivity]].
    destruct (Image_decode env src) as [[w h]|];
      [destruct (target_dimensions w h maxSize); discriminate|].
    intros H; injection H as <-; split; [tauto | reflexivity].
Qed.

Lemma resize_stage_fulfilled env processedInput maxSize quality t out :
  resize_stage env processedInput maxSize quality = (t, Fulfilled out) ->
  exists before src w h,
    Image_decode env src = Some (w, h)
    /\ t = (before
            ++ [ImageLoad src;
                DrawImage src (fst (target_dimensions w h maxSize))
                  (snd (target_dimensions w h maxSize));
                ToDataURL "image/jpeg" quality])%list
    /\ out = canvas_toDataURL env src
               (fst (target_dimensions w h maxSize))
               (snd (target_dimensions w h maxSize)) "image/jpeg" quality
    /\ (before = []
        \/ exists f, before = [ReadAsDataURL f]
                     /\ processedInput = VFile f
                     /\ FileReader_result env f = Some src).
Proof.
  unfold resize_stage, load_outcome.
  destruct processedInput as [| | | | s | | f | | |]; try discriminate.
  - destruct (Image_decode env s) as [[w h]|] eqn:D; [|discriminate].
    destruct (target_dimensions w h maxSize) as [nw nh] eqn:T.
    intros H; injection H as <- <-.
    exists [], s, w, h. split; [exact D|]. rewrite T.
    do 2 (split; [reflexivity|]). now left.
  - destruct (FileReader_result env f) as [src|] eqn:R; [|discriminate].
    destruct (Image_decode env src) as [[w h]|] eqn:D; [|discriminate].
    destruct (target_dimensions w h maxSize) as [nw nh] eqn:T.
    intros H; injection H as <- <-.
    exists [ReadAsDataURL f], src, w, h. split; [exact D|]. rewrite T.
    do 2 (split; [reflexivity|]). right. now exists f.
Qed.

Lemma resize_stage_events env processedInput maxSize quality :
  forallb is_resize_event
    (fst (resize_stage env processedInput maxSize quality)) = true
  /\ (isHeicFile processedInput = false ->
      forallb reads_no_heic
        (fst (resize_stage env processedInput maxSize quality)) = true).
Proof.
  unfold resize_stage, load_outcome.
  destruct processedInput as [| | | | s | | f | | |];
    try (split; reflexivity).
  - destruct (Image_decode env s) as [[w h]|];
      [destruct (target_dimensions w h maxSize)|]; split; reflexivity.
  - destruct (FileReader_result env f) as [src|].
    + destruct (Image_decode env src) as [[w h]|];
        [destruct (target_dimensions w h maxSize)|];
        (split; [reflexivity
                | intros H; cbn [fst forallb reads_no_heic]; now rewrite H]).
    + split; [reflexivity
             | intros H; cbn [fst forallb reads_no_heic]; now rewrite H].
Qed.

Lemma no_decoder_call_among_resize_events t :
  forallb is_resize_event t = true -> filter is_decoder_call t = [].
Proof.
  induction t as [|ev t IH]; [reflexivity|].
  cbn [forallb filter]. intros H. apply andb_true_iff in H as [H1 H2].
  destruct ev; try discriminate H1; cbn [is_decoder_call]; now apply IH.
Qed.

(** ** Outcomes by input *)

(** X15: on a string, the source is set on the image as it is, and the
    outcome is decided by the decoding alone: a source that does not
    decode gives the 'Failed to load image' rejection after the load
    attempt, with nothing drawn; one that decodes to w x h is drawn once
    at the target dimensions and encoded once as image/jpeg.  maxSize
    defaults to 512 and quality to the Number 0.9. *)
Theorem resize_string_decode env s maxSize quality :
  (Image_decode env s = None
   <-> resizeAndConvertToJpeg env (VString s) maxSize quality
       = ([ImageLoad s], Rejected DecodeFailure))
  /\ (forall w h,
        Image_decode env s = Some (w, h) ->
        let d := target_dimensions w h (maxSize_or_default maxSize) in
        let q := quality_or_default quality in
        resizeAndConvertToJpeg env (VString s) maxSize quality
        = ([ImageLoad s; DrawImage s (fst d) (snd d);
            ToDataURL "image/jpeg" q],
           Fulfilled (canvas_toDataURL env s (fst d) (snd d)
                        "image/jpeg" q)))
  /\ maxSize_or_default None = 512
  /\ quality_or_default None = S754_finite false 8106479329266893 (-53).
Proof.
  rewrite (resize_plain env (VString s) maxSize quality eq_refl).
  unfold resize_stage, load_outcome.
  split; [|split; [|split; reflexivity]].
  - destruct (Image_decode env s) as [[w h]|].
    + destruct (target_dimensions w h _). split; discriminate.
    + split; reflexivity.
  - intros w h ->. cbv zeta.
    now destruct (target_dimensions w h _).
Qed.

(** X16: a File that is not detected as HEIC is read first; a read error
    gives the 'Failed to read file' rejection with nothing loaded, and
    otherwise the call goes on exactly as the call on the string that was
    read. *)
Theorem resize_file_input env f maxSize quality :
  isHeicFile (VFile f) = false ->
  resizeAndConvertToJpeg env (VFile f) maxSize quality
  = match FileReader_result env f with
    | None => ([ReadAsDataURL f], Rejected ReadFailure)
    | Some src =>
        let '(t, r) :=
          resizeAndConvertToJpeg env (VString src) maxSize quality in
        (ReadAsDataURL f :: t, r)
    end.
Proof.
  intros H. rewrite (resize_plain _ _ _ _ H). unfold resize_stage.
  destruct (FileReader_result env f) as [src|]; [|reflexivity].
  now rewrite (resize_plain env (VString src)).
Qed.

Lemma resize_file_input_witness :
  resizeAndConvertToJpeg (page_env None) (VFile photo_jpg) None None
  = match FileReader_result (page_env None) photo_jpg with
    | None => ([ReadAsDataURL photo_jpg], Rejected ReadFailure)
    | Some src =>
        let '(t, r) :=
          resizeAndConvertToJpeg (page_env None) (VString src) None None in
        (ReadAsDataURL photo_jpg :: t, r)
    end.
Proof.
  apply (resize_file_input (page_env None) photo_jpg None None). reflexivity.
Defined.

(** X17: on a File detected as HEIC the conversion comes first and is
    complete before anything else: a failed conversion is the outcome of
    the whole call, with the same reason and no further effect; after a
    successful one the call goes on exactly as the call on the converted
    File, which is not converted again. *)
Theorem resize_heic_input env f maxSize quality :
  isHeicFile (VFile f) = true ->
  resizeAndConvertToJpeg env (VFile f) maxSize quality
  = match convertHeicToJpeg env f with
    | (t, Fulfilled jpegFile) =>
        let '(t2, r) := resizeAndConvertToJpeg env jpegFile maxSize quality in
        ((t ++ t2)%list, r)
    | (t, Rejected e) => (t, Rejected e)
    end.
Proof.
  intros H. rewrite (resize_heic _ _ _ _ H).
  destruct (convertHeicToJpeg env f) as [t [v|e]] eqn:E; [|reflexivity].
  now rewrite (resize_plain env v _ _
                 (convertHeicToJpeg_fulfilled_not_heic _ _ _ _ E)).
Qed.

Lemma resize_heic_input_witness :
  resizeAndConvertToJpeg (page_env (Some jpeg_decoder)) (VFile img_heic)
    (Some 512) None
  = match convertHeicToJpeg (page_env (Some jpeg_decoder)) img_heic with
    | (t, Fulfilled jpegFile) =>
        let '(t2, r) :=
          resizeAndConvertToJpeg (page_env (Some jpeg_decoder)) jpegFile
            (Some 512) None in
        ((t ++ t2)%list, r)
    | (t, Rejected e) => (t, Rejected e)
    end.
Proof.
  apply (resize_heic_input (page_env (Some jpeg_decoder)) img_heic
           (Some 512) None).
  reflexivity.
Defined.

(** ** Every call *)

(** X18: the reasons of a rejection.  Every rejection of
    [resizeAndConvertToJpeg] is one of: the read, decode or invalid-input
    error; or, for an input detected as HEIC only, the missing-dependency
    error, the ReferenceError for [window], a wrapped conversion error, or
    the TypeError of reading [message] on [undefined] or [null]. *)
Theorem resize_rejection_reasons env input maxSize quality e :
  snd (resizeAndConvertToJpeg env input maxSize quality) = Rejected e ->
  (isHeicFile input = true
   /\ (e = DependencyMissing \/ e = WindowNotDefined
       \/ (exists cause, e = ConversionFailed cause)
       \/ (exists reason,
             nullish reason = true /\ e = CannotReadMessage reason)))
  \/ e = ReadFailure \/ e = DecodeFailure \/ e = InvalidInput.
Proof.
  destruct (isHeicFile input) eqn:H.
  - destruct (isHeicFile_File _ H) as [f ->]. rewrite (resize_heic _ _ _ _ H).
    destruct (convertHeicToJpeg env f) as [t [v|e']] eqn:E.
    + destruct (resize_stage env v _ _) as [t2 r] eqn:S. cbn [snd].
      intros ->. right.
      apply (resize_stage_rejected env v (maxSize_or_default maxSize)
               (quality_or_default quality)).
      now rewrite S.
    + cbn [snd]. intros H'; injection H' as ->. left. split; trivial.
      apply (convertHeicToJpeg_rejected env f). now rewrite E.
  - rewrite (resize_plain _ _ _ _ H). intros H'. right.
    now apply resize_stage_rejected in H'.
Qed.

Lemma resize_rejection_reasons_witness :
  (isHeicFile (VFile img_heic) = true
   /\ (DependencyMissing = DependencyMissing
       \/ DependencyMissing = WindowNotDefined
       \/ (exists cause, DependencyMissing = ConversionFailed cause)
       \/ (exists reason,
             nullish reason = true
             /\ DependencyMissing = CannotReadMessage reason)))
  \/ DependencyMissing = ReadFailure \/ DependencyMissing = DecodeFailure
  \/ DependencyMissing = InvalidInput.
Proof.
  apply (resize_rejection_reasons (page_env None) (VFile img_heic) None None).
  reflexivity.
Defined.

(** X19: no partial output: a call that is rejected has drawn nothing and
    encoded nothing. *)
Theorem resize_rejected_draws_nothing env input maxSize quality e :
  snd (resizeAndConvertToJpeg env input maxSize quality) = Rejected e ->
  existsb is_output_event
    (fst (resizeAndConvertToJpeg env input maxSize quality)) = false.
Proof.
  destruct (isHeicFile input) eqn:H.
  - destruct (isHeicFile_File _ H) as [f ->]. rewrite (resize_heic _ _ _ _ H).
    pose proof (convertHeicToJpeg_trace env f) as T.
    destruct (convertHeicToJpeg env f) as [t [v|e']] eqn:E; cbn [fst snd] in T.
    + destruct (resize_stage env v _ _) as [t2 r] eqn:S. cbn [fst snd].
      intros ->. rewrite existsb_app, T. cbn [existsb is_output_event orb].
      pose proof (resize_stage_rejected env v (maxSize_or_default maxSize)
                    (quality_or_default quality) e) as R.
      rewrite S in R. now apply R.
    + intros _. cbn [fst]. destruct T as [-> | [error ->]]; reflexivity.
  - rewrite (resize_plain _ _ _ _ H). intros H'.
    now apply resize_stage_rejected in H'.
Qed.

Lemma resize_rejected_draws_nothing_witness :
  existsb is_output_event
    (fst (resizeAndConvertToJpeg
            (page_env (Some (rejecting_decoder (VString "unsupported"))))
            (VFile img_heic) None None)) = false.
Proof.
  apply (resize_rejected_draws_nothing
           (page_env (Some (rejecting_decoder (VString "unsupported"))))
           (VFile img_heic) None None
           (ConversionFailed "unsupported")).
  reflexivity.
Defined.

(** X20: a call that is fulfilled has loaded a source that decoded to
    some w x h, then drawn it exactly once, at the target dimensions of
    w x h for maxSize (512 by default), then encoded the canvas exactly
    once as image/jpeg at the quality (0.9 by default); the value is that
    encoding, and these are the last three effects. *)
Theorem resize_fulfilled_inv env input maxSize quality t out :
  resizeAndConvertToJpeg env input maxSize quality = (t, Fulfilled out) ->
  exists before src w h,
    Image_decode env src = Some (w, h)
    /\ (let d := target_dimensions w h (maxSize_or_default maxSize) in
        let q := quality_or_default quality in
        t = (before ++ [ImageLoad src; DrawImage src (fst d) (snd d);
                        ToDataURL "image/jpeg" q])%list
        /\ out = canvas_toDataURL env src (fst d) (snd d) "image/jpeg" q)
    /\ existsb is_output_event before = false.
Proof.
  destruct (isHeicFile input) eqn:H.
  - destruct (isHeicFile_File _ H) as [f ->]. rewrite (resize_heic _ _ _ _ H).
    pose proof (convertHeicToJpeg_trace env f) as T.
    destruct (convertHeicToJpeg env f) as [t1 [v|e']] eqn:E;
      cbn [fst snd] in T; [|discriminate].
    destruct (resize_stage env v _ _) as [t2 r] eqn:S.
    intros H'; injection H' as <- ->.
    destruct (resize_stage_fulfilled _ _ _ _ _ _ S)
      as (before & src & w & h & D & -> & -> & B).
    exists (t1 ++ before)%list, src, w, h. split; [exact D|].
    split; [split; [now rewrite app_assoc | reflexivity]|].
    rewrite existsb_app, T.
    destruct B as [-> | (g & -> & _)]; reflexivity.
  - rewrite (resize_plain _ _ _ _ H). intros S.
    destruct (resize_stage_fulfilled _ _ _ _ _ _ S)
      as (before & src & w & h & D & -> & -> & B).
    exists before, src, w, h. split; [exact D|].
    split; [split; reflexivity|].
    destruct B as [-> | (g & -> & _)]; reflexivity.
Qed.

Lemma resize_fulfilled_inv_witness :
  exists before src w h,
    Image_decode (page_env None) src = Some (w, h)
    /\ (let d := target_dimensions w h (maxSize_or_default None) in
        let q := quality_or_default None in
        [ReadAsDataURL photo_jpg; ImageLoad "data:image/jpeg;base64,";
         DrawImage "data:image/jpeg;base64," 512 384;
         ToDataURL "image/jpeg" default_quality]
        = (before ++ [ImageLoad src; DrawImage src (fst d) (snd d);
                      ToDataURL "image/jpeg" q])%list
        /\ "data:image/jpeg;base64,/9j/"%string
           = canvas_toDataURL (page_env None) src (fst d) (snd d)
               "image/jpeg" q)
    /\ existsb is_output_event before = false.
Proof.
  apply (resize_fulfilled_inv (page_env None) (VFile photo_jpg) None None).
  vm_compute. reflexivity.
Defined.

(** X21: the FileReader never receives a File that [isHeicFile] detects,
    whatever the input and the environment: the original of a conversion
    is never read, and its result is not detected. *)
Theorem resize_never_reads_heic env input maxSize quality :
  forallb reads_no_heic
    (fst (resizeAndConvertToJpeg env input maxSize quality)) = true.
Proof.
  destruct (isHeicFile input) eqn:H.
  - destruct (isHeicFile_File _ H) as [f ->]. rewrite (resize_heic _ _ _ _ H).
    pose proof (convertHeicToJpeg_trace env f) as T.
    destruct (convertHeicToJpeg env f) as [t [v|e']] eqn:E; cbn [fst snd] in T.
    + destruct (resize_stage env v _ _) as [t2 r] eqn:S. cbn [fst].
      rewrite forallb_app, T. cbn [forallb reads_no_heic andb].
      pose proof (proj2 (resize_stage_events env v
                           (maxSize_or_default maxSize)
                           (quality_or_default quality))
                    (convertHeicToJpeg_fulfilled_not_heic _ _ _ _ E)) as R.
      now rewrite S in R.
    + cbn [fst]. destruct T as [-> | [error ->]]; reflexivity.
  - rewrite (resize_plain _ _ _ _ H). now apply resize_stage_events.
Qed.

(** X22: the decoder is called at most once in a call, and only for a
    File that is detected as HEIC, with that File; for any other input
    the only effects are reading, loading, drawing and encoding. *)
Theorem resize_decoder_calls env input maxSize quality :
  let calls :=
    filter is_decoder_call
      (fst (resizeAndConvertToJpeg env input maxSize quality)) in
  (calls = []
   \/ exists f, input = VFile f /\ isHeicFile input = true
                /\ calls = [DecoderCall (convert_request f)])
  /\ (isHeicFile input = false ->
      forallb is_resize_event
        (fst (resizeAndConvertToJpeg env input maxSize quality)) = true).
Proof.
  intros calls. subst calls.
  destruct (isHeicFile input) eqn:H.
  - split; [|discriminate].
    destruct (isHeicFile_File _ H) as [f ->]. rewrite (resize_heic _ _ _ _ H).
    pose proof (convertHeicToJpeg_trace env f) as T.
    destruct (convertHeicToJpeg env f) as [t [v|e']] eqn:E; cbn [fst snd] in T.
    + destruct (resize_stage env v _ _) as [t2 r] eqn:S. cbn [fst].
      right. exists f. repeat split; trivial.
      rewrite filter_app, T.
      pose proof (proj1 (resize_stage_events env v
                           (maxSize_or_default maxSize)
                           (quality_or_default quality))) as R.
      rewrite S in R. cbn [fst] in R.
      now rewrite (no_decoder_call_among_resize_events _ R).
    + cbn [fst]. destruct T as [-> | [error ->]]; [now left|].
      right. exists f. repeat split; trivial.
  - rewrite (resize_plain _ _ _ _ H).
    pose proof (proj1 (resize_stage_events env input
                         (maxSize_or_default maxSize)
                         (quality_or_default quality))) as R.
    split; [left; now apply no_decoder_call_among_resize_events
           | intros _; exact R].
Qed.
